(** * Img-ann-app: the image annotation tool of [streamlit_app.py]

    A shallow embedding of the script: the four Google Drive helpers
    ([authenticate_drive], [upload_to_drive], [list_drive_images],
    [download_image]) and [main], with its sidebar, upload loop, annotation
    editor and export handler.

    The script is effectful Python.  Its effects are threaded through one
    [World]: the Streamlit session state, the log file, what is shown on the
    page, the local file system, the remote folder and the trace of remote
    calls.  A computation either returns, raises a Python [Exception], or is
    halted by [st.stop()], whose signal derives from [BaseException] and is
    therefore caught by no [except Exception] clause. *)

From Stdlib Require Import ZArith Ascii String List Lia Permutation.
From stdpp Require Import base option list gmap strings.

Local Open Scope Z_scope.
Local Open Scope string_scope.
Local Open Scope list_scope.

(** ** Python values that the script passes around *)

Module Py.

(** The exception classes that occur; [ExternalError] stands for whatever a
    library call (PyDrive, oauth2client, the network) raises. *)
Inductive ExnClass :=
| AttributeError | TypeError | ValueError | KeyError | FileNotFoundError
| ExternalError.

Record exn := Exn { exn_class : ExnClass; exn_msg : string }.

(** How a block of statements ends. *)
Inductive Outcome (A : Type) :=
| Ret (a : A)        (* falls through or returns [a] *)
| Raise (e : exn)    (* an [Exception] propagates *)
| Stop.              (* [st.stop()] *)
Arguments Ret {A} a.
Arguments Raise {A} e.
Arguments Stop {A}.

(** The argument [file_obj] of [upload_to_drive] is untyped.  These are the
    shapes a caller can pass: a plain [str] (which has no attribute
    [name]), a [pathlib.Path] (path-like, with [name] its last component),
    and a file-like object carrying a [name], such as Streamlit's
    [UploadedFile]. *)
Inductive FileObj :=
| PathStr (path : string)
| PathLike (path : string)
| NamedStream (name : string) (data : string).

End Py.
Export Py.

(** ** Data model *)

(** The dict built at lines 217-224, one field per key. *)
Record Annotation := {
  filename : string;
  label : string;
  x_min : Z;
  y_min : Z;
  x_max : Z;
  y_max : Z
}.

(** A cell of a pandas table. *)
Inductive Cell := CStr (s : string) | CInt (z : Z) | CNaN.

(** [pd.DataFrame]: the column names and the rows, one cell per column. *)
Record DataFrame := { columns : list string; rows : list (list Cell) }.

(** Contents of a file: opaque bytes, or a CSV file given by its records
    (the header record and the data records).  The quoting that the csv
    writer applies to a field is lossless and is not modelled. *)
Inductive FileData :=
| Bytes (data : string)
| Csv (header : list string) (records : list (list Cell)).

(** A file of the remote folder, as the Drive API describes it. *)
Record DriveFile := {
  id : string;
  title : string;
  mimeType : option string;
  parents : list string;
  trashed : bool;
  content : FileData
}.

(** What [cv2.imread] yields: only the shape is used. *)
Record Image := { height : Z; width : Z }.

(** The handle returned by [GoogleDrive(gauth)]. *)
Inductive Drive : Set := GoogleDrive.

(** A Drive search query.  [list_drive_images] sends the conjunction of
    three clauses, the last one a disjunction. *)
Inductive Query :=
| InParents (folder_id : string)
| Trashed (b : bool)
| MimeType (m : string)
| QAnd (q1 q2 : Query)
| QOr (q1 q2 : Query).

(** The text of a query, as the f-string of line 88 spells it. *)
Fixpoint query_text (q : Query) : string :=
  match q with
  | InParents f => "'" +:+ f +:+ "' in parents"
  | Trashed b => "trashed=" +:+ (if b then "true" else "false")
  | MimeType m => "mimeType='" +:+ m +:+ "'"
  | QAnd q1 q2 => query_text q1 +:+ " and " +:+ query_text q2
  | QOr q1 q2 => "(" +:+ query_text q1 +:+ " or " +:+ query_text q2 +:+ ")"
  end.

(** ** Log, page and remote trace *)

Inductive Level := INFO | WARNING | ERROR.

(** A value interpolated into an f-string. *)
Inductive PyVal :=
| VStr (s : string)
| VInt (z : Z)
| VExn (e : exn)
| VAnnotation (a : Annotation).

(** An f-string: its text with [{}] at each replacement field, and the
    values of the fields. *)
Record Message := Fmt { template : string; fields : list PyVal }.

Record LogRecord := { level : Level; log_msg : Message }.

Inductive Place := Page | Sidebar.
Inductive Element :=
| st_error | st_warning | st_success | st_info
| st_write | st_title | st_header | st_markdown | st_image | st_page_config.

(** An element on the page.  For [st_image] the message has no text: its
    fields are the URL of the picture, when it is shown by URL, and the
    caption. *)
Record Shown := { place : Place; element : Element; shown_msg : Message }.

(** A request sent to the remote service. *)
Inductive RemoteCall :=
| CallWebAuth
| CallRefresh
| CallList (q : Query)
| CallGetContent (file_id : string)
| CallInsert (file_title : string).

(** The parsed [credentials.json]. *)
Record Credentials := { access_token_expired : bool }.

Record World := {
  annotations : option (list Annotation);  (* st.session_state['annotations'] *)
  app_log : list LogRecord;                (* app.log, oldest first *)
  screen : list Shown;                     (* elements rendered, oldest first *)
  local_fs : gmap string FileData;         (* local files by path *)
  credentials_json : option Credentials;   (* credentials.json *)
  remote : list DriveFile;                 (* every file the service holds *)
  remote_calls : list RemoteCall           (* requests sent, oldest first *)
}.

Definition set_annotations (v : option (list Annotation)) (w : World) : World :=
  {| annotations := v; app_log := app_log w; screen := screen w;
     local_fs := local_fs w; credentials_json := credentials_json w;
     remote := remote w; remote_calls := remote_calls w |}.

Definition set_app_log (v : list LogRecord) (w : World) : World :=
  {| annotations := annotations w; app_log := v; screen := screen w;
     local_fs := local_fs w; credentials_json := credentials_json w;
     remote := remote w; remote_calls := remote_calls w |}.

Definition set_screen (v : list Shown) (w : World) : World :=
  {| annotations := annotations w; app_log := app_log w; screen := v;
     local_fs := local_fs w; credentials_json := credentials_json w;
     remote := remote w; remote_calls := remote_calls w |}.

Definition set_local_fs (v : gmap string FileData) (w : World) : World :=
  {| annotations := annotations w; app_log := app_log w; screen := screen w;
     local_fs := v; credentials_json := credentials_json w;
     remote := remote w; remote_calls := remote_calls w |}.

Definition set_credentials_json (v : option Credentials) (w : World) : World :=
  {| annotations := annotations w; app_log := app_log w; screen := screen w;
     local_fs := local_fs w; credentials_json := v;
     remote := remote w; remote_calls := remote_calls w |}.

Definition set_remote (v : list DriveFile) (w : World) : World :=
  {| annotations := annotations w; app_log := app_log w; screen := screen w;
     local_fs := local_fs w; credentials_json := credentials_json w;
     remote := v; remote_calls := remote_calls w |}.

Definition set_remote_calls (v : list RemoteCall) (w : World) : World :=
  {| annotations := annotations w; app_log := app_log w; screen := screen w;
     local_fs := local_fs w; credentials_json := credentials_json w;
     remote := remote w; remote_calls := v |}.

(** ** The monad of the script: state and exceptions *)

Definition M (A : Type) : Type := World -> Outcome A * World.

Definition ret {A} (a : A) : M A := fun w => (Ret a, w).

Definition bind {A B} (m : M A) (k : A -> M B) : M B :=
  fun w =>
    match m w with
    | (Ret a, w') => k a w'
    | (Raise e, w') => (Raise e, w')
    | (Stop, w') => (Stop, w')
    end.

Definition raise {A} (e : exn) : M A := fun w => (Raise e, w).

(** [st.stop()] *)
Definition st_stop {A} : M A := fun w => (Stop, w).

(** [try: body  except Exception as e: handler e].  The stop signal is not an
    [Exception] and passes through. *)
Definition try_except {A} (body : M A) (handler : exn -> M A) : M A :=
  fun w =>
    match body w with
    | (Raise e, w') => handler e w'
    | r => r
    end.

Declare Scope py_scope.
Delimit Scope py_scope with py.
Notation "x <- c1 ;; c2" := (bind c1 (fun x => c2))
  (at level 100, c1 at next level, c2 at level 200, right associativity) : py_scope.
Notation "c1 ;; c2" := (bind c1 (fun _ => c2))
  (at level 100, c2 at level 200, right associativity) : py_scope.
Local Open Scope py_scope.

(** [for x in l: body x] *)
Fixpoint for_each {A} (l : list A) (body : A -> M unit) : M unit :=
  match l with
  | [] => ret tt
  | x :: l' => body x ;; for_each l' body
  end.

Definition get {A} (f : World -> A) : M A := fun w => (Ret (f w), w).
Definition modify (f : World -> World) : M unit := fun w => (Ret tt, f w).

(** [logging.info], [logging.warning], [logging.error] append to app.log. *)
Definition logging (l : Level) (m : Message) : M unit :=
  modify (fun w => set_app_log (app_log w ++ [{| level := l; log_msg := m |}]) w).

(** A Streamlit element call on the page or in the sidebar. *)
Definition st (p : Place) (e : Element) (m : Message) : M unit :=
  modify (fun w => set_screen (screen w ++ [{| place := p; element := e; shown_msg := m |}]) w).

Definition text (s : string) : Message := Fmt s [].

Definition remote_call (c : RemoteCall) : M unit :=
  modify (fun w => set_remote_calls (remote_calls w ++ [c]) w).

(** ** The outside world: services and libraries the script calls *)

Inductive AuthStep :=
| LoadCredentialsFile | LocalWebserverAuth | Refresh | Authorize
| SaveCredentialsFile.

(** What the collaborators answer.  An [_error] field says whether the call
    raises, and what; the other fields are library functions whose results
    the script only passes on. *)
Record Env := {
  auth_error : AuthStep -> option exn;
  list_error : Query -> option exn;                 (* ListFile(..).GetList() *)
  get_content_error : string -> option exn;         (* GetContentFile, by id *)
  insert_error : string -> option exn;              (* Upload(), by title *)
  fresh_id : list DriveFile -> string;              (* id given by the service *)
  guess_type : string -> option string;             (* mimetypes.guess_type *)
  imread : FileData -> option Image;                (* cv2.imread's decoder *)
  mkstemp : gmap string FileData -> string -> string; (* tempfile's path *)
  image_error : DriveFile -> option exn             (* st.sidebar.image *)
}.

(** When the service finds a file to match a query. *)
Fixpoint matches (q : Query) (f : DriveFile) : bool :=
  match q with
  | InParents p => bool_decide (p ∈ parents f)
  | Trashed b => Bool.eqb (trashed f) b
  | MimeType m => bool_decide (mimeType f = Some m)
  | QAnd q1 q2 => matches q1 f && matches q2 f
  | QOr q1 q2 => matches q1 f || matches q2 f
  end.

(** ** Local files *)

Definition write_file (path : string) (d : FileData) : M unit :=
  modify (fun w => set_local_fs (<[path := d]> (local_fs w)) w).

(** [open(path, 'rb').read()] *)
Definition read_file (path : string) : M FileData :=
  fs <- get local_fs ;;
  match fs !! path with
  | Some d => ret d
  | None => raise (Exn FileNotFoundError path)
  end.

(** [os.remove] and [os.unlink] *)
Definition os_remove (path : string) : M unit :=
  fs <- get local_fs ;;
  match fs !! path with
  | Some _ => modify (fun w => set_local_fs (delete path (local_fs w)) w)
  | None => raise (Exn FileNotFoundError path)
  end.

Definition contains_sep (s : string) : bool :=
  existsb (fun c => Ascii.eqb c "/") (list_ascii_of_string s).

(** The last component of a path that does not end in a separator:
    [pathlib.Path(p).name]. *)
Fixpoint basename (p : string) : string :=
  match p with
  | EmptyString => EmptyString
  | String c r =>
      if contains_sep r then basename r
      else if Ascii.eqb c "/" then r else String c r
  end.

(** ** Constants (lines 21-22) *)

Definition GDRIVE_FOLDER_ID : string := "YOUR_GOOGLE_DRIVE_FOLDER_ID".
Definition ALLOWED_IMAGE_EXTENSIONS : list string := [".jpg"; ".jpeg"; ".png"].

(** ** Library functions on strings *)

(** Splits a file name at its last dot. *)
Fixpoint last_dot (s : string) : option (string * string) :=
  match s with
  | EmptyString => None
  | String c r =>
      match last_dot r with
      | Some (stem, ext) => Some (String c stem, ext)
      | None => if Ascii.eqb c "." then Some (EmptyString, String c r) else None
      end
  end.

Definition all_dots (s : string) : bool :=
  forallb (fun c => Ascii.eqb c ".") (list_ascii_of_string s).

(** [os.path.splitext(p)[1]]: the extension starts at the last dot of the
    last path component; leading dots of the component do not count. *)
Definition splitext_ext (p : string) : string :=
  match last_dot (basename p) with
  | Some (stem, ext) => if all_dots stem then EmptyString else ext
  | None => EmptyString
  end.

Definition lower_ascii (c : ascii) : ascii :=
  let n := nat_of_ascii c in
  if (Nat.leb 65 n && Nat.leb n 90)%bool then ascii_of_nat (n + 32) else c.

(** [str.lower], on ASCII letters. *)
Fixpoint lower (s : string) : string :=
  match s with
  | EmptyString => EmptyString
  | String c r => String (lower_ascii c) (lower r)
  end.

(** ** Python dicts: insertion-ordered, one entry per key *)

(** [d[k] = v]: an existing key keeps its position and takes the new value;
    a new key goes to the end. *)
Fixpoint dict_set {V} (k : string) (v : V) (d : list (string * V)) : list (string * V) :=
  match d with
  | [] => [(k, v)]
  | (k', v') :: d' =>
      if String.eqb k' k then (k', v) :: d' else (k', v') :: dict_set k v d'
  end.

Definition dict_get {V} (k : string) (d : list (string * V)) : option V :=
  snd <$> List.find (fun kv => String.eqb (fst kv) k) d.

Definition dict_keys {V} (d : list (string * V)) : list string := map fst d.

(** ** pandas *)

(** The dict literal of lines 217-224 in key order. *)
Definition annotation_items (a : Annotation) : list (string * Cell) :=
  [("filename", CStr (filename a)); ("label", CStr (label a));
   ("x_min", CInt (x_min a)); ("y_min", CInt (y_min a));
   ("x_max", CInt (x_max a)); ("y_max", CInt (y_max a))].

(** The columns of [pd.DataFrame(records)] are the keys of the records in
    order of first appearance. *)
Definition add_keys (cols : list string) (rec : list (string * Cell)) : list string :=
  fold_left (fun cs kv => if bool_decide (fst kv ∈ cs) then cs else cs ++ [fst kv]) rec cols.

Definition frame_columns (recs : list (list (string * Cell))) : list string :=
  fold_left add_keys recs [].

(** A record without the key of a column has NaN there. *)
Definition cell_of (rec : list (string * Cell)) (col : string) : Cell :=
  default CNaN (dict_get col rec).

Definition pd_DataFrame (recs : list (list (string * Cell))) : DataFrame :=
  let cols := frame_columns recs in
  {| columns := cols; rows := map (fun rec => map (cell_of rec) cols) recs |}.

(** [df.to_csv(path, index=False)]: the column names, then a record per row. *)
Definition to_csv (df : DataFrame) (path : string) : M unit :=
  write_file path (Csv (columns df) (rows df)).

(** ** What the user did before this run *)

Record UploadedFile := { name : string; getbuffer : string }.

Record Inputs := {
  uploaded_files : list UploadedFile;   (* st.sidebar.file_uploader *)
  selected_index : nat;                 (* position chosen in the selectbox *)
  text_value : string -> string;        (* text typed, by widget key *)
  number_value : string -> Z;           (* number entered, by widget key *)
  clicked : string -> bool              (* the button clicked, by label *)
}.

Section Script.

Variable env : Env.

(** *** PyDrive calls *)

(** A [GoogleDriveFile] created locally by [drive.CreateFile]. *)
Record LocalHandle := {
  h_title : string;
  h_parents : list string;
  h_mimeType : option string;
  h_content : option FileData;
  h_id : option string
}.

Definition fails {A} (o : option exn) (k : M A) : M A :=
  match o with
  | Some e => raise e
  | None => k
  end.

(** [drive.ListFile({'q': query}).GetList()] *)
Definition ListFile_GetList (drive : Drive) (q : Query) : M (list DriveFile) :=
  remote_call (CallList q) ;;
  fails (list_error env q)
    (files <- get remote ;;
     ret (List.filter (matches q) files)).

(** [file.GetContentFile(path)] for [file = drive.CreateFile({'id': file_id})] *)
Definition GetContentFile (drive : Drive) (file_id : string) (path : string) : M unit :=
  remote_call (CallGetContent file_id) ;;
  fails (get_content_error env file_id)
    (files <- get remote ;;
     match List.find (fun f => String.eqb (id f) file_id) files with
     | Some f => write_file path (content f)
     | None => raise (Exn ExternalError "File not found")
     end).

(** [file.SetContentFile(file_obj)] opens its argument as a path. *)
Definition SetContentFile (h : LocalHandle) (file_obj : FileObj) : M LocalHandle :=
  match file_obj with
  | PathStr p | PathLike p =>
      d <- read_file p ;;
      ret {| h_title := h_title h; h_parents := h_parents h;
             h_mimeType := guess_type env p;
             h_content := Some d; h_id := h_id h |}
  | NamedStream _ _ =>
      raise (Exn TypeError "expected str, bytes or os.PathLike object")
  end.

(** [file.Upload()] creates a new remote file every time. *)
Definition Upload (drive : Drive) (h : LocalHandle) : M LocalHandle :=
  remote_call (CallInsert (h_title h)) ;;
  fails (insert_error env (h_title h))
    (files <- get remote ;;
     let new_id := fresh_id env files in
     let f := {| id := new_id; title := h_title h; mimeType := h_mimeType h;
                 parents := h_parents h; trashed := false;
                 content := default (Bytes "") (h_content h) |} in
     modify (fun w => set_remote (remote w ++ [f]) w) ;;
     ret {| h_title := h_title h; h_parents := h_parents h;
            h_mimeType := h_mimeType h; h_content := h_content h;
            h_id := Some new_id |}).

(** [file['id']] *)
Definition getitem_id (h : LocalHandle) : M string :=
  match h_id h with
  | Some i => ret i
  | None => raise (Exn KeyError "id")
  end.

(** [file_obj.name] *)
Definition getattr_name (file_obj : FileObj) : M string :=
  match file_obj with
  | PathStr _ => raise (Exn AttributeError "'str' object has no attribute 'name'")
  | PathLike p => ret (basename p)
  | NamedStream n _ => ret n
  end.

(** [cv2.imread(path)]: [None] when the file is missing or does not decode. *)
Definition cv2_imread (path : string) : M (option Image) :=
  fs <- get local_fs ;;
  ret (fs !! path ≫= imread env).

Definition auth_step (s : AuthStep) : M unit := fails (auth_error env s) (ret tt).

(** *** Lines 25-48 *)
Definition authenticate_drive : M (option Drive) :=
  try_except
    (auth_step LoadCredentialsFile ;;
     credentials <- get credentials_json ;;
     new_credentials <-
       match credentials with
       | None =>
           remote_call CallWebAuth ;;
           auth_step LocalWebserverAuth ;;
           ret {| access_token_expired := false |}
       | Some c =>
           if access_token_expired c then
             remote_call CallRefresh ;;
             auth_step Refresh ;;
             ret {| access_token_expired := false |}
           else
             auth_step Authorize ;;
             ret c
       end ;;
     auth_step SaveCredentialsFile ;;
     modify (set_credentials_json (Some new_credentials)) ;;
     let drive := GoogleDrive in
     logging INFO (text "Successfully authenticated with Google Drive.") ;;
     ret (Some drive))
    (fun e =>
     logging ERROR (Fmt "Google Drive authentication failed: {}" [VExn e]) ;;
     st Page st_error (text "Failed to authenticate with Google Drive. Please check the logs.") ;;
     ret None).

(** *** Lines 51-73.  [folder_id] is tested for truth: [None] and the empty
    string both take the branch without parents. *)
Definition truthy (folder_id : option string) : bool :=
  match folder_id with
  | Some s => negb (String.eqb s "")
  | None => false
  end.

Definition CreateFile (t : string) (ps : list string) : LocalHandle :=
  {| h_title := t; h_parents := ps; h_mimeType := None;
     h_content := None; h_id := None |}.

(** Lines 64-69, the body of the [try]. *)
Definition upload_body (drive : Drive) (file_obj : FileObj)
    (folder_id : option string) : M (option string) :=
  file_name <- getattr_name file_obj ;;
  let file :=
    if truthy folder_id
    then CreateFile file_name [default "" folder_id]
    else CreateFile file_name [] in
  file <- SetContentFile file file_obj ;;
  file <- Upload drive file ;;
  file_id <- getitem_id file ;;
  logging INFO (Fmt "Uploaded {} to Google Drive with ID: {}" [VStr file_name; VStr file_id]) ;;
  file_id <- getitem_id file ;;
  ret (Some file_id).

(** Lines 71-73, the handler: both messages read [file_obj.name] again. *)
Definition upload_handler (file_obj : FileObj) (e : exn) : M (option string) :=
  name1 <- getattr_name file_obj ;;
  logging ERROR (Fmt "Failed to upload {} to Google Drive: {}" [VStr name1; VExn e]) ;;
  name2 <- getattr_name file_obj ;;
  st Page st_error (Fmt "Failed to upload {} to Google Drive." [VStr name2]) ;;
  ret None.

Definition upload_to_drive (drive : Drive) (file_obj : FileObj)
    (folder_id : option string) : M (option string) :=
  try_except (upload_body drive file_obj folder_id) (upload_handler file_obj).

(** *** Lines 76-95 *)
Definition images_query (folder_id : string) : Query :=
  QAnd (QAnd (InParents folder_id) (Trashed false))
       (QOr (MimeType "image/jpeg") (MimeType "image/png")).

Definition list_drive_images (drive : Drive) (folder_id : string) : M (list DriveFile) :=
  try_except
    (let query := images_query folder_id in
     file_list <- ListFile_GetList drive query ;;
     logging INFO (Fmt "Retrieved {} images from Google Drive folder ID: {}"
                       [VInt (Z.of_nat (length file_list)); VStr folder_id]) ;;
     ret file_list)
    (fun e =>
     logging ERROR (Fmt "Failed to list images from Google Drive folder ID {}: {}"
                        [VStr folder_id; VExn e]) ;;
     st Page st_error (text "Failed to retrieve images from Google Drive.") ;;
     ret []).

(** *** Lines 98-121 *)
Definition download_image (drive : Drive) (file_id : string) : M (option Image) :=
  try_except
    (GetContentFile drive file_id "temp_image" ;;
     image <- cv2_imread "temp_image" ;;
     os_remove "temp_image" ;;
     match image with
     | None => raise (Exn ValueError "Downloaded image is None.")
     | Some img =>
         logging INFO (Fmt "Downloaded image ID: {}" [VStr file_id]) ;;
         ret (Some img)
     end)
    (fun e =>
     logging ERROR (Fmt "Failed to download image ID {}: {}" [VStr file_id; VExn e]) ;;
     st Page st_error (text "Failed to download an image from Google Drive.") ;;
     ret None).


Variable inp : Inputs.

(** *** Widgets *)

(** [st.selectbox(label, options)]: the chosen option, the first one when
    nothing was chosen, [None] without options. *)
Definition selectbox (options : list string) : option string :=
  match options !! selected_index inp with
  | Some o => Some o
  | None => head options
  end.

Definition text_input (key : string) : string := text_value inp key.

(** [st.number_input(.., min_value, max_value, key)] keeps its value within
    the two bounds. *)
Definition number_input (min_value max_value : Z) (key : string) : Z :=
  Z.max min_value (Z.min max_value (number_value inp key)).

Definition button (lbl : string) : bool := clicked inp lbl.

(** *** Session state *)

(** [st.session_state['annotations']] *)
Definition session_annotations : M (list Annotation) :=
  s <- get annotations ;;
  match s with
  | Some l => ret l
  | None => raise (Exn KeyError "annotations")
  end.

(** [st.session_state['annotations'].append(a)] *)
Definition session_append (a : Annotation) : M unit :=
  l <- session_annotations ;;
  modify (set_annotations (Some (l ++ [a]))).

(** Lines 187-188 *)
Definition init_session : M unit :=
  s <- get annotations ;;
  match s with
  | Some _ => ret tt
  | None => modify (set_annotations (Some []))
  end.

(** *** Temporary files *)

(** [tempfile.NamedTemporaryFile(delete=False, suffix=suffix)] creates an
    empty file and hands out its path; closing it keeps the file. *)
Definition NamedTemporaryFile (suffix : string) : M string :=
  fs <- get local_fs ;;
  let path := mkstemp env fs suffix in
  write_file path (Bytes "") ;;
  ret path.

(** *** Lines 140-151: the sidebar gallery *)
Definition show_in_sidebar (img_file : DriveFile) : M unit :=
  try_except
    (let image_url := "https://drive.google.com/uc?id=" +:+ id img_file in
     fails (image_error env img_file)
       (st Sidebar st_image (Fmt "" [VStr image_url; VStr (title img_file)])))
    (fun e =>
     logging ERROR (Fmt "Failed to display image {} in sidebar: {}"
                        [VStr (title img_file); VExn e]) ;;
     st Sidebar st_error (Fmt "Failed to display image {}." [VStr (title img_file)])).

Definition sidebar_gallery (drive_images : list DriveFile) : M unit :=
  match drive_images with
  | _ :: _ =>
      st Sidebar st_write (Fmt "**{} Images Found**" [VInt (Z.of_nat (length drive_images))]) ;;
      for_each drive_images show_in_sidebar
  | [] => st Sidebar st_write (text "No images found in the specified folder.")
  end.

(** *** Lines 160-178: the upload loop *)
Definition upload_one (drive : Drive) (uploaded_file : UploadedFile) : M unit :=
  let file_extension := lower (splitext_ext (name uploaded_file)) in
  if negb (bool_decide (file_extension ∈ ALLOWED_IMAGE_EXTENSIONS)) then
    st Sidebar st_warning (Fmt "File {} has an unsupported extension." [VStr (name uploaded_file)]) ;;
    logging WARNING (Fmt "Attempted to upload unsupported file type: {}" [VStr (name uploaded_file)])
  else
    tmp_file_path <- NamedTemporaryFile file_extension ;;
    write_file tmp_file_path (Bytes (getbuffer uploaded_file)) ;;
    file_id <- upload_to_drive drive (PathStr tmp_file_path) (Some GDRIVE_FOLDER_ID) ;;
    (if truthy file_id
     then st Sidebar st_success (Fmt "Uploaded {} successfully." [VStr (name uploaded_file)])
     else st Sidebar st_error (Fmt "Failed to upload {}." [VStr (name uploaded_file)])) ;;
    os_remove tmp_file_path.

Definition upload_section (drive : Drive) : M unit :=
  for_each (uploaded_files inp) (upload_one drive).

(** *** Lines 193-195: the selection *)
Definition image_options (drive_images : list DriveFile) : list (string * string) :=
  fold_left (fun d img => dict_set (title img) (id img) d) drive_images [].

(** *** Lines 212-227: the body of the save button *)
Definition save_annotation (selected_image_title label : string)
    (x_min y_min x_max y_max : Z) : M unit :=
  if (x_min >=? x_max) || (y_min >=? y_max) then
    st Page st_error (text "Invalid coordinates: x_min must be less than x_max and y_min less than y_max.") ;;
    logging WARNING (Fmt "Invalid annotation coordinates for {}." [VStr selected_image_title])
  else
    let annotation :=
      {| filename := selected_image_title; label := label;
         x_min := x_min; y_min := y_min; x_max := x_max; y_max := y_max |} in
    session_append annotation ;;
    st Page st_success (Fmt "Annotation saved for {}" [VStr selected_image_title]) ;;
    logging INFO (Fmt "Annotation saved for {}: {}"
                      [VStr selected_image_title; VAnnotation annotation]).

(** *** Lines 191-227: the annotation editor *)
Definition annotate (drive : Drive) (drive_images : list DriveFile) : M unit :=
  let image_options := image_options drive_images in
  match selectbox (dict_keys image_options) with
  | None => raise (Exn KeyError "None")
  | Some selected_image_title =>
      selected_image_id <-
        match dict_get selected_image_title image_options with
        | Some i => ret i
        | None => raise (Exn KeyError selected_image_title)
        end ;;
      image <- download_image drive selected_image_id ;;
      match image with
      | Some image =>
          st Page st_image (Fmt "" [VStr selected_image_title]) ;;
          st Page st_write (text "Draw bounding boxes on the image to annotate.") ;;
          let label := text_input ("label_" +:+ selected_image_title) in
          let x_min := number_input 0 (width image) ("x_min_" +:+ selected_image_title) in
          let y_min := number_input 0 (height image) ("y_min_" +:+ selected_image_title) in
          let x_max := number_input 0 (width image) ("x_max_" +:+ selected_image_title) in
          let y_max := number_input 0 (height image) ("y_max_" +:+ selected_image_title) in
          if button ("Save Annotation for " +:+ selected_image_title) then
            save_annotation selected_image_title label x_min y_min x_max y_max
          else ret tt
      | None => ret tt
      end
  end.

(** *** Lines 233-252: the body of the export button *)
Definition export_annotations (drive : Drive) : M unit :=
  current <- session_annotations ;;
  match current with
  | _ :: _ =>
      try_except
        (records <- session_annotations ;;
         let df := pd_DataFrame (map annotation_items records) in
         tmp_csv <- NamedTemporaryFile ".csv" ;;
         to_csv df tmp_csv ;;
         upload_to_drive drive (PathStr tmp_csv) (Some GDRIVE_FOLDER_ID) ;;
         os_remove tmp_csv ;;
         st Page st_success (text "All annotations uploaded to Google Drive.") ;;
         logging INFO (text "All annotations uploaded to Google Drive.") ;;
         modify (set_annotations (Some [])))
        (fun e =>
         logging ERROR (Fmt "Failed to upload annotations: {}" [VExn e]) ;;
         st Page st_error (text "Failed to upload annotations to Google Drive."))
  | [] =>
      st Page st_warning (text "No annotations to upload.") ;;
      logging WARNING (text "Attempted to upload annotations, but none were found.")
  end.

(** *** Lines 124-255 *)
Definition main : M unit :=
  drive <- authenticate_drive ;;
  drive <- match drive with
           | None => st_stop
           | Some d => ret d
           end ;;
  st Page st_page_config (text "Image Annotation Tool") ;;
  st Page st_title (text "Image Annotation Tool") ;;
  st Page st_write (text "Upload images to annotate and save annotations to Google Drive.") ;;
  st Sidebar st_header (text "Google Drive Images") ;;
  drive_images <- list_drive_images drive GDRIVE_FOLDER_ID ;;
  sidebar_gallery drive_images ;;
  st Sidebar st_header (text "Upload New Images") ;;
  upload_section drive ;;
  st Sidebar st_markdown (text "---") ;;
  st Sidebar st_write (text "Developed by [Your Name](https://yourwebsite.com)") ;;
  st Page st_header (text "Annotate Images") ;;
  init_session ;;
  match drive_images with
  | _ :: _ => annotate drive drive_images
  | [] => st Page st_info (text "No images available for annotation. Please upload images using the sidebar.")
  end ;;
  (if button "Save All Annotations to Google Drive"
   then export_annotations drive
   else ret tt) ;;
  st Page st_markdown (text "---") ;;
  st Page st_write (text "Developed by [Your Name](https://yourwebsite.com)").

(** *** Lines 257-262 *)
Definition script : M unit :=
  try_except main
    (fun e =>
     logging ERROR (text "An unexpected error occurred in the Streamlit app.") ;;
     st Page st_error (text "An unexpected error occurred. Please check the logs for more details.")).

End Script.


(** * Expected outcomes and sample data

    The worlds that the operations are shown to reach, the predicates of the
    statements, and the data of the concrete runs. *)

(** ** Worlds *)

Definition show (p : Place) (e : Element) (m : Message) (w : World) : World :=
  set_screen (screen w ++ [{| place := p; element := e; shown_msg := m |}]) w.

Definition logged (l : Level) (m : Message) (w : World) : World :=
  set_app_log (app_log w ++ [{| level := l; log_msg := m |}]) w.

Definition called (c : RemoteCall) (w : World) : World :=
  set_remote_calls (remote_calls w ++ [c]) w.

(** The exception of [file_obj.name] on a [str]. *)
Definition no_name : exn := Exn AttributeError "'str' object has no attribute 'name'".

(** After [list_drive_images], when the query raised [e] and when it found
    [found]. *)
Definition list_failed (folder_id : string) (e : exn) (w : World) : World :=
  show Page st_error (text "Failed to retrieve images from Google Drive.")
    (logged ERROR (Fmt "Failed to list images from Google Drive folder ID {}: {}"
                       [VStr folder_id; VExn e])
       (called (CallList (images_query folder_id)) w)).

Definition list_done (folder_id : string) (found : list DriveFile) (w : World) : World :=
  logged INFO (Fmt "Retrieved {} images from Google Drive folder ID: {}"
                   [VInt (Z.of_nat (length found)); VStr folder_id])
    (called (CallList (images_query folder_id)) w).

(** After [download_image] has failed with [e]. *)
Definition download_failed (file_id : string) (e : exn) (w : World) : World :=
  show Page st_error (text "Failed to download an image from Google Drive.")
    (logged ERROR (Fmt "Failed to download image ID {}: {}" [VStr file_id; VExn e]) w).

(** The local files once the content of [f] has been fetched to temp_image,
    read and removed again. *)
Definition fetched (f : DriveFile) (w : World) : World :=
  set_local_fs (delete "temp_image" (<["temp_image" := content f]> (local_fs w))) w.

(** After the save button, on invalid and on valid coordinates. *)
Definition rejected (selected_image_title : string) (w : World) : World :=
  logged WARNING (Fmt "Invalid annotation coordinates for {}." [VStr selected_image_title])
    (show Page st_error
       (text "Invalid coordinates: x_min must be less than x_max and y_min less than y_max.") w).

Definition accepted (a : Annotation) (session : list Annotation) (w : World) : World :=
  logged INFO (Fmt "Annotation saved for {}: {}" [VStr (filename a); VAnnotation a])
    (show Page st_success (Fmt "Annotation saved for {}" [VStr (filename a)])
       (set_annotations (Some (session ++ [a])) w)).

Definition CSV_COLUMNS : list string :=
  ["filename"; "label"; "x_min"; "y_min"; "x_max"; "y_max"].

(** The six values of an annotation, in column order. *)
Definition annotation_row (a : Annotation) : list Cell :=
  [CStr (filename a); CStr (label a);
   CInt (x_min a); CInt (y_min a); CInt (x_max a); CInt (y_max a)].

(** After the export button on a session that holds [session]: the CSV sits
    at the temporary path, the failure is logged and shown, and nothing else
    has changed. *)
Definition export_failed (env : Env) (session : list Annotation) (w : World) : World :=
  let tmp_csv := mkstemp env (local_fs w) ".csv" in
  show Page st_error (text "Failed to upload annotations to Google Drive.")
    (logged ERROR (Fmt "Failed to upload annotations: {}" [VExn no_name])
       (set_local_fs
          (<[tmp_csv := Csv CSV_COLUMNS (map annotation_row session)]>
             (<[tmp_csv := Bytes ""]> (local_fs w))) w)).

(** After the export button on an empty session. *)
Definition nothing_to_export (w : World) : World :=
  logged WARNING (text "Attempted to upload annotations, but none were found.")
    (show Page st_warning (text "No annotations to upload.") w).

(** ** Predicates *)

(** The files that the specification wants listed: in the folder, not
    trashed, of MIME type image/jpeg or image/png. *)
Definition is_folder_image (folder_id : string) (f : DriveFile) : Prop :=
  folder_id ∈ parents f /\ trashed f = false /\
  (mimeType f = Some "image/jpeg" \/ mimeType f = Some "image/png").

(** The invariant of an annotation. *)
Definition valid (a : Annotation) : Prop := x_min a < x_max a /\ y_min a < y_max a.

(** The save button pressed once for each annotation of [new], in order. *)
Definition save_all (new : list Annotation) : M unit :=
  for_each new (fun a =>
    save_annotation (filename a) (label a) (x_min a) (y_min a) (x_max a) (y_max a)).

(** [never_stops m]: [m] returns or raises.  [returns m]: [m] returns. *)
Definition never_stops {A} (m : M A) : Prop := forall w, fst (m w) <> Stop.
Definition returns {A} (m : M A) : Prop := forall w, exists a w', m w = (Ret a, w').

(** One step of the dict comprehension of line 193. *)
Definition add_option (d : list (string * string)) (img : DriveFile) : list (string * string) :=
  dict_set (title img) (id img) d.

(** [keeps f m]: running [m] leaves the component [f] of the world as it
    was, however [m] ends. *)
Definition keeps {B A} (f : World -> B) (m : M A) : Prop :=
  forall w, f (snd (m w)) = f w.

(** [never_raises m]: no exception leaves [m]. *)
Definition never_raises {A} (m : M A) : Prop := forall w e, fst (m w) <> Raise e.

(** The upload requests among the requests sent so far. *)
Definition is_insert (c : RemoteCall) : bool :=
  match c with
  | CallInsert _ => true
  | _ => false
  end.

Definition inserts_sent (w : World) : list RemoteCall :=
  List.filter is_insert (remote_calls w).

(** The calls that [authenticate_drive] makes on a [GoogleAuth], given what
    credentials.json holds. *)
Definition auth_steps (c : option Credentials) : list AuthStep :=
  [LoadCredentialsFile;
   match c with
   | None => LocalWebserverAuth
   | Some c => if access_token_expired c then Refresh else Authorize
   end;
   SaveCredentialsFile].

(** The annotations of the session, none while the session state has no
    entry for them. *)
Definition session_list (w : World) : list Annotation := default [] (annotations w).

(** What a run may do to a session that held [l]: nothing, or append one
    valid annotation. *)
Definition session_step (l : list Annotation) (w' : World) : Prop :=
  session_list w' = l \/ exists a, session_list w' = l ++ [a] /\ valid a.

(** The extension check of line 163. *)
Definition supported (uploaded_file : UploadedFile) : Prop :=
  lower (splitext_ext (name uploaded_file)) ∈ ALLOWED_IMAGE_EXTENSIONS.

(** After the upload loop has skipped [uploaded_file]. *)
Definition skipped (w : World) (uploaded_file : UploadedFile) : World :=
  logged WARNING (Fmt "Attempted to upload unsupported file type: {}" [VStr (name uploaded_file)])
    (show Sidebar st_warning
       (Fmt "File {} has an unsupported extension." [VStr (name uploaded_file)]) w).

(** After the gallery has tried to show [img_file]. *)
Definition thumbnail (env : Env) (w : World) (img_file : DriveFile) : World :=
  match image_error env img_file with
  | None =>
      show Sidebar st_image
        (Fmt "" [VStr ("https://drive.google.com/uc?id=" +:+ id img_file); VStr (title img_file)]) w
  | Some e =>
      show Sidebar st_error (Fmt "Failed to display image {}." [VStr (title img_file)])
        (logged ERROR (Fmt "Failed to display image {} in sidebar: {}"
                           [VStr (title img_file); VExn e]) w)
  end.

(** The pictures that the gallery cannot show. *)
Definition broken (env : Env) (imgs : list DriveFile) : list DriveFile :=
  List.filter (fun f => bool_decide (is_Some (image_error env f))) imgs.

(** After [upload_to_drive] has failed with [e] on an object named [n]. *)
Definition upload_failed (n : string) (e : exn) (w : World) : World :=
  show Page st_error (Fmt "Failed to upload {} to Google Drive." [VStr n])
    (logged ERROR (Fmt "Failed to upload {} to Google Drive: {}" [VStr n; VExn e]) w).

(** The remote file that an upload of the local file [p], holding [d],
    creates. *)
Definition uploaded_file (env : Env) (p : string) (folder_id : option string)
    (d : FileData) (w : World) : DriveFile :=
  {| id := fresh_id env (remote w);
     title := basename p;
     mimeType := guess_type env p;
     parents := if truthy folder_id then [default "" folder_id] else [];
     trashed := false;
     content := d |}.

(** After [upload_to_drive] has uploaded the local file [p]. *)
Definition uploaded (env : Env) (p : string) (folder_id : option string)
    (d : FileData) (w : World) : World :=
  logged INFO (Fmt "Uploaded {} to Google Drive with ID: {}"
                   [VStr (basename p); VStr (fresh_id env (remote w))])
    (set_remote (remote w ++ [uploaded_file env p folder_id d w])
       (called (CallInsert (basename p)) w)).

Definition has_dot (s : string) : bool :=
  existsb (fun c => Ascii.eqb c ".") (list_ascii_of_string s).

(** The download requests among the requests sent so far. *)
Definition is_get_content (c : RemoteCall) : bool :=
  match c with
  | CallGetContent _ => true
  | _ => false
  end.

Definition downloads_sent (w : World) : list RemoteCall :=
  List.filter is_get_content (remote_calls w).

(** ** Sample data *)

(** A service that answers every call, a decoder that accepts any bytes as a
    640x480 image, and temporary files named /tmp/tmpq7 plus the suffix. *)
Definition quiet_env : Env :=
  {| auth_error := fun _ => None;
     list_error := fun _ => None;
     get_content_error := fun _ => None;
     insert_error := fun _ => None;
     fresh_id := fun _ => "id-new";
     guess_type := fun _ => None;
     imread := fun d => match d with
                        | Bytes _ => Some {| height := 480; width := 640 |}
                        | Csv _ _ => None
                        end;
     mkstemp := fun _ suffix => "/tmp/tmpq7" +:+ suffix;
     image_error := fun _ => None |}.

(** Two pictures with the same title and a text file, all in the folder. *)
Definition cat1 : DriveFile :=
  {| id := "id-1"; title := "a.jpg"; mimeType := Some "image/jpeg";
     parents := [GDRIVE_FOLDER_ID]; trashed := false; content := Bytes "one" |}.

Definition notes : DriveFile :=
  {| id := "id-2"; title := "notes.txt"; mimeType := Some "text/plain";
     parents := [GDRIVE_FOLDER_ID]; trashed := false; content := Bytes "two" |}.

Definition cat2 : DriveFile :=
  {| id := "id-3"; title := "a.jpg"; mimeType := Some "image/png";
     parents := [GDRIVE_FOLDER_ID]; trashed := false; content := Bytes "three" |}.

Definition world_of (session : list Annotation) : World :=
  {| annotations := Some session; app_log := []; screen := []; local_fs := ∅;
     credentials_json := None; remote := [cat1; notes; cat2]; remote_calls := [] |}.

Definition cat_box : Annotation :=
  {| filename := "a.jpg"; label := "cat"; x_min := 1; y_min := 2; x_max := 10; y_max := 20 |}.

(** The user picks the first option, types cat and 1, 2, 10, 20, and
    clicks the save button. *)
Definition save_click : Inputs :=
  {| uploaded_files := [];
     selected_index := 0;
     text_value := fun _ => "cat";
     number_value := fun key =>
       if String.eqb key "x_min_a.jpg" then 1
       else if String.eqb key "y_min_a.jpg" then 2
       else if String.eqb key "x_max_a.jpg" then 10 else 20;
     clicked := fun lbl => String.eqb lbl "Save Annotation for a.jpg" |}.

(** The user has dropped one picture into the uploader. *)
Definition one_upload : Inputs :=
  {| uploaded_files := [{| name := "P.PNG"; getbuffer := "png" |}];
     selected_index := 0;
     text_value := fun _ => "";
     number_value := fun _ => 0;
     clicked := fun _ => false |}.

(** The user has dropped a text file, a picture and another picture. *)
Definition three_uploads : Inputs :=
  {| uploaded_files := [{| name := "notes.txt"; getbuffer := "txt" |};
                        {| name := "P.PNG"; getbuffer := "png" |};
                        {| name := "later.jpg"; getbuffer := "jpg" |}];
     selected_index := 0;
     text_value := fun _ => "";
     number_value := fun _ => 0;
     clicked := fun _ => false |}.

(** A world with one local picture. *)
Definition world_with_photo : World :=
  set_local_fs (<["/home/me/photo.png" := Bytes "png"]> ∅) (world_of []).


(** A world whose folder holds the text file only. *)
Definition world_without_pictures : World := set_remote [notes] (world_of []).


(** * Properties *)

(** ** Running the monad *)

Lemma bind_Ret {A B} (m : M A) (k : A -> M B) w a w' :
  m w = (Ret a, w') -> bind m k w = k a w'.
Proof. intros H. unfold bind. now rewrite H. Qed.

(** ** [upload_to_drive] on a path given as a string *)

Lemma getattr_name_str path w : getattr_name (PathStr path) w = (Raise no_name, w).
Proof. reflexivity. Qed.

Lemma upload_str_raises env drive path folder_id w :
  upload_to_drive env drive (PathStr path) folder_id w = (Raise no_name, w).
Proof. reflexivity. Qed.

(** C9: when [file_obj] is a plain string, reading [file_obj.name] raises
    AttributeError, so does the handler that wants to report it, and
    [upload_to_drive] ends with that exception, handed to its caller: it
    returns neither an id nor [None], and it has logged, shown and sent
    nothing.  Both call sites, [upload_one] and [export_annotations], pass
    such a string. *)
Theorem upload_to_drive_str_propagates (env : Env) (drive : Drive) (path : string)
    (folder_id : option string) (w : World) :
  getattr_name (PathStr path) w = (Raise no_name, w) /\
  upload_body env drive (PathStr path) folder_id w = (Raise no_name, w) /\
  (forall e : exn, upload_handler (PathStr path) e w = (Raise no_name, w)) /\
  upload_to_drive env drive (PathStr path) folder_id w = (Raise no_name, w) /\
  (forall r : option string,
     fst (upload_to_drive env drive (PathStr path) folder_id w) <> Ret r).
Proof.
  repeat split; try reflexivity.
  intros r. rewrite upload_str_raises. discriminate.
Qed.

(** C6, at the input that breaks it: called the way [main] calls it, with the
    path of the temporary CSV, [upload_to_drive] lets the AttributeError out
    instead of logging, reporting and returning [None]. *)
Theorem upload_boundary_leaks (env : Env) (w : World) :
  upload_to_drive env GoogleDrive (PathStr "/tmp/tmpq7.csv") (Some GDRIVE_FOLDER_ID) w
  = (Raise no_name, w).
Proof. apply upload_str_raises. Qed.

(** ** Listing *)

Lemma list_drive_images_run env drive folder_id w :
  list_drive_images env drive folder_id w =
    match list_error env (images_query folder_id) with
    | Some e => (Ret [], list_failed folder_id e w)
    | None =>
        let found := List.filter (matches (images_query folder_id)) (remote w) in
        (Ret found, list_done folder_id found w)
    end.
Proof.
  unfold list_drive_images, ListFile_GetList, try_except, bind, fails.
  destruct (list_error env (images_query folder_id)); reflexivity.
Qed.

Lemma matches_images_query folder_id f :
  matches (images_query folder_id) f = true <-> is_folder_image folder_id f.
Proof.
  unfold is_folder_image. cbn [images_query matches].
  rewrite !andb_true_iff, orb_true_iff, !bool_decide_eq_true.
  destruct (trashed f); cbn; intuition congruence.
Qed.

Lemma filter_all {A} (p : A -> bool) (l : list A) :
  Forall (fun x => p x = true) l -> List.filter p l = l.
Proof.
  induction 1 as [|x l Hx _ IH]; cbn; [reflexivity|]. now rewrite Hx, IH.
Qed.

Lemma filter_none {A} (p : A -> bool) (l : list A) :
  Forall (fun x => p x <> true) l -> List.filter p l = [].
Proof.
  induction 1 as [|x l Hx _ IH]; cbn; [reflexivity|].
  destruct (p x); [congruence | exact IH].
Qed.

Lemma filter_perm {A} (p : A -> bool) (l l' : list A) :
  Permutation l l' -> Permutation (List.filter p l) (List.filter p l').
Proof.
  induction 1 as [|x l l' _ IH|x y l|l l' l'' _ IH1 _ IH2]; cbn.
  - constructor.
  - destruct (p x); [now constructor | exact IH].
  - destruct (p x), (p y); try reflexivity. constructor.
  - now transitivity (List.filter p l').
Qed.

Lemma filter_images_perm folder_id store imgs others :
  Permutation store (imgs ++ others) ->
  Forall (is_folder_image folder_id) imgs ->
  Forall (fun f => ~ is_folder_image folder_id f) others ->
  Permutation (List.filter (matches (images_query folder_id)) store) imgs.
Proof.
  intros Hp Hi Ho.
  rewrite (filter_perm _ _ _ Hp), List.filter_app.
  rewrite filter_all, filter_none, app_nil_r; [reflexivity| |].
  - eapply Forall_impl; [exact Ho|]. intros f Hf Hm. now apply Hf, matches_images_query.
  - eapply Forall_impl; [exact Hi|]. intros f Hf. now apply matches_images_query.
Qed.

(** C7: when the service holds the N image files of the folder among M
    other files (in any order), [list_drive_images] returns exactly those N
    files; when the query raises, it returns the empty list.  It never
    raises. *)
Theorem list_drive_images_exact (env : Env) (drive : Drive) (folder_id : string)
    (w : World) (imgs others : list DriveFile) :
  Permutation (remote w) (imgs ++ others) ->
  Forall (is_folder_image folder_id) imgs ->
  Forall (fun f => ~ is_folder_image folder_id f) others ->
  match list_error env (images_query folder_id) with
  | None =>
      exists found w',
        list_drive_images env drive folder_id w = (Ret found, w') /\
        Permutation found imgs /\ length found = length imgs
  | Some e =>
      exists w', list_drive_images env drive folder_id w = (Ret [], w')
  end.
Proof.
  intros Hp Hi Ho. rewrite list_drive_images_run.
  destruct (list_error env (images_query folder_id)) as [e|].
  - eexists. reflexivity.
  - pose proof (filter_images_perm folder_id _ _ _ Hp Hi Ho) as Hf.
    eexists _, _. split; [reflexivity|]. split; [exact Hf|].
    now apply Permutation_length.
Qed.

(** ** The annotation editor *)

Lemma session_annotations_run w l :
  annotations w = Some l -> session_annotations w = (Ret l, w).
Proof. intros H. unfold session_annotations, bind, get. now rewrite H. Qed.

Lemma save_annotation_invalid t lbl x0 y0 x1 y1 w :
  x0 >= x1 \/ y0 >= y1 ->
  save_annotation t lbl x0 y0 x1 y1 w = (Ret tt, rejected t w).
Proof.
  intros H. unfold save_annotation.
  replace ((x0 >=? x1) || (y0 >=? y1)) with true; [reflexivity|].
  symmetry. apply orb_true_iff. rewrite !Z.geb_le. lia.
Qed.

Lemma save_annotation_valid t lbl x0 y0 x1 y1 w session :
  annotations w = Some session ->
  x0 < x1 -> y0 < y1 ->
  save_annotation t lbl x0 y0 x1 y1 w =
    (Ret tt, accepted {| filename := t; label := lbl; x_min := x0; y_min := y0;
                         x_max := x1; y_max := y1 |} session w).
Proof.
  intros Hs Hx Hy. unfold save_annotation.
  replace ((x0 >=? x1) || (y0 >=? y1)) with false.
  - unfold session_append, session_annotations, bind, get. rewrite Hs. reflexivity.
  - symmetry. rewrite !Z.geb_leb. apply orb_false_iff. split; apply Z.leb_gt; lia.
Qed.

(** C1: with [x_min >= x_max] or [y_min >= y_max] the save button shows an
    error, logs a warning and leaves the session as it was; with
    [x_min < x_max] and [y_min < y_max] it appends, whatever the label, the
    annotation made of the five inputs and the selected title as filename
    to the end of the session. *)
Theorem save_annotation_validates (selected_image_title lbl : string)
    (x0 y0 x1 y1 : Z) (w : World) (session : list Annotation) :
  annotations w = Some session ->
  (x0 >= x1 \/ y0 >= y1 ->
     save_annotation selected_image_title lbl x0 y0 x1 y1 w
       = (Ret tt, rejected selected_image_title w) /\
     annotations (rejected selected_image_title w) = Some session) /\
  (x0 < x1 /\ y0 < y1 ->
     let a := {| filename := selected_image_title; label := lbl;
                 x_min := x0; y_min := y0; x_max := x1; y_max := y1 |} in
     save_annotation selected_image_title lbl x0 y0 x1 y1 w
       = (Ret tt, accepted a session w) /\
     annotations (accepted a session w) = Some (session ++ [a])).
Proof.
  intros Hs. split.
  - intros H. split; [now apply save_annotation_invalid | exact Hs].
  - intros [Hx Hy] a. split; [now apply save_annotation_valid | reflexivity].
Qed.

(** ** The export handler *)

Lemma add_keys_annotation a : add_keys CSV_COLUMNS (annotation_items a) = CSV_COLUMNS.
Proof. reflexivity. Qed.

Lemma frame_columns_more cols l :
  cols = CSV_COLUMNS ->
  fold_left add_keys (map annotation_items l) cols = CSV_COLUMNS.
Proof.
  intros ->. induction l as [|a l IH]; [reflexivity|].
  cbn [map fold_left]. now rewrite add_keys_annotation.
Qed.

Lemma frame_columns_annotations a l :
  frame_columns (map annotation_items (a :: l)) = CSV_COLUMNS.
Proof.
  unfold frame_columns. cbn [map fold_left]. now apply frame_columns_more.
Qed.

Lemma DataFrame_of_annotations a l :
  pd_DataFrame (map annotation_items (a :: l)) =
    {| columns := CSV_COLUMNS; rows := map annotation_row (a :: l) |}.
Proof.
  unfold pd_DataFrame. rewrite frame_columns_annotations.
  f_equal. rewrite map_map. reflexivity.
Qed.

Section ExportHandler.

Variable env : Env.

Lemma export_nonempty_run drive w a l :
  annotations w = Some (a :: l) ->
  export_annotations env drive w = (Ret tt, export_failed env (a :: l) w).
Proof.
  intros Hs. unfold export_annotations.
  rewrite (bind_Ret _ _ _ _ _ (session_annotations_run _ _ Hs)).
  unfold try_except.
  rewrite (bind_Ret _ _ _ _ _ (session_annotations_run _ _ Hs)).
  rewrite DataFrame_of_annotations.
  reflexivity.
Qed.

Lemma export_empty_run drive w :
  annotations w = Some [] ->
  export_annotations env drive w = (Ret tt, nothing_to_export w).
Proof.
  intros Hs. unfold export_annotations.
  now rewrite (bind_Ret _ _ _ _ _ (session_annotations_run _ _ Hs)).
Qed.

End ExportHandler.

(** C2: on a non-empty session the upload step of the export fails (the
    call raises), the handler logs and shows the failure, and the session
    afterwards is the session before. *)
Theorem export_failure_keeps_session (env : Env) (drive : Drive) (w : World)
    (a : Annotation) (l : list Annotation) :
  annotations w = Some (a :: l) ->
  let tmp_csv := mkstemp env (local_fs w) ".csv" in
  let w' := snd (export_annotations env drive w) in
  (forall w1, upload_to_drive env drive (PathStr tmp_csv) (Some GDRIVE_FOLDER_ID) w1
              = (Raise no_name, w1)) /\
  fst (export_annotations env drive w) = Ret tt /\
  annotations w' = Some (a :: l) /\
  app_log w' = app_log w ++
    [{| level := ERROR;
        log_msg := Fmt "Failed to upload annotations: {}" [VExn no_name] |}] /\
  screen w' = screen w ++
    [{| place := Page; element := st_error;
        shown_msg := text "Failed to upload annotations to Google Drive." |}].
Proof.
  intros Hs tmp_csv w'. subst w'.
  rewrite (export_nonempty_run env drive w a l Hs).
  repeat split; try reflexivity. exact Hs.
Qed.

(** C4: on a non-empty session the export writes a CSV file whose header is
    the six column names filename, label, x_min, y_min, x_max, y_max in this
    order and which has as many records as the session has annotations. *)
Theorem export_csv_shape (env : Env) (drive : Drive) (w : World)
    (a : Annotation) (l : list Annotation) :
  annotations w = Some (a :: l) ->
  exists records,
    local_fs (snd (export_annotations env drive w)) !! mkstemp env (local_fs w) ".csv"
      = Some (Csv ["filename"; "label"; "x_min"; "y_min"; "x_max"; "y_max"] records) /\
    length records = length (a :: l).
Proof.
  intros Hs. rewrite (export_nonempty_run env drive w a l Hs).
  exists (map annotation_row (a :: l)). split.
  - cbn. apply lookup_insert_eq.
  - apply length_map.
Qed.

(** C5: on an empty session the export sends nothing to the remote store,
    shows the notice that there is nothing to upload (and logs a warning),
    and the session stays empty. *)
Theorem export_empty_is_local (env : Env) (drive : Drive) (w : World) :
  annotations w = Some [] ->
  let w' := snd (export_annotations env drive w) in
  fst (export_annotations env drive w) = Ret tt /\
  remote_calls w' = remote_calls w /\
  remote w' = remote w /\
  screen w' = screen w ++
    [{| place := Page; element := st_warning;
        shown_msg := text "No annotations to upload." |}] /\
  app_log w' = app_log w ++
    [{| level := WARNING;
        log_msg := text "Attempted to upload annotations, but none were found." |}] /\
  annotations w' = Some [].
Proof.
  intros Hs w'. subst w'. rewrite (export_empty_run env drive w Hs).
  repeat split. exact Hs.
Qed.

(** ** From the editor to the exported table *)

Lemma save_all_run new : forall w session,
  annotations w = Some session ->
  Forall valid new ->
  exists w', save_all new w = (Ret tt, w') /\
             annotations w' = Some (session ++ new) /\
             local_fs w' = local_fs w.
Proof.
  induction new as [|a new IH]; intros w session Hs Hv.
  - exists w. rewrite app_nil_r. now repeat split.
  - apply Forall_cons in Hv as [[Hx Hy] Hv].
    unfold save_all. cbn [for_each].
    rewrite (bind_Ret _ _ _ _ _ (save_annotation_valid _ _ _ _ _ _ _ _ Hs Hx Hy)).
    replace {| filename := filename a; label := label a; x_min := x_min a;
               y_min := y_min a; x_max := x_max a; y_max := y_max a |} with a
      by now destruct a.
    destruct (IH (accepted a session w) (session ++ [a]) eq_refl Hv)
      as (w' & Hrun & Hann & Hfs).
    exists w'. split; [exact Hrun|]. split; [|exact Hfs].
    now rewrite Hann, <- app_assoc.
Qed.

(** C3: valid annotations saved one after the other are held by the session
    in that order, after what it held before, with repetitions kept; the
    table that the export writes has one record per annotation in the same
    order, made of the six values of the annotation as they are. *)
Theorem export_preserves_order (env : Env) (drive : Drive) (w : World)
    (session new : list Annotation) :
  annotations w = Some session ->
  Forall valid new ->
  new <> [] ->
  exists w1,
    save_all new w = (Ret tt, w1) /\
    annotations w1 = Some (session ++ new) /\
    local_fs (snd (export_annotations env drive w1)) !! mkstemp env (local_fs w1) ".csv"
      = Some (Csv ["filename"; "label"; "x_min"; "y_min"; "x_max"; "y_max"]
                  (map (fun a => [CStr (filename a); CStr (label a); CInt (x_min a);
                                  CInt (y_min a); CInt (x_max a); CInt (y_max a)])
                       (session ++ new))).
Proof.
  intros Hs Hv Hne.
  destruct (save_all_run new w session Hs Hv) as (w1 & Hrun & Hann & _).
  exists w1. split; [exact Hrun|]. split; [exact Hann|].
  destruct (session ++ new) as [|a l] eqn:E.
  - apply app_eq_nil in E as [_ ->]. congruence.
  - rewrite (export_nonempty_run env drive w1 a l Hann). cbn. apply lookup_insert_eq.
Qed.

(** C8, at the input that breaks it: after the export of a session that
    holds one annotation has returned, the temporary CSV is still in the
    local file system. *)
Theorem export_leaves_csv (env : Env) (w : World) :
  let a := {| filename := "a.jpg"; label := "cat";
              x_min := 1; y_min := 2; x_max := 10; y_max := 20 |} in
  let w0 := set_annotations (Some [a]) w in
  fst (export_annotations env GoogleDrive w0) = Ret tt /\
  local_fs (snd (export_annotations env GoogleDrive w0)) !! mkstemp env (local_fs w) ".csv"
    = Some (Csv ["filename"; "label"; "x_min"; "y_min"; "x_max"; "y_max"]
                [[CStr "a.jpg"; CStr "cat"; CInt 1; CInt 2; CInt 10; CInt 20]]).
Proof.
  intros a w0.
  rewrite (export_nonempty_run env GoogleDrive w0 a [] eq_refl).
  split; [reflexivity|]. cbn. apply lookup_insert_eq.
Qed.

(** ** Downloading *)

Section Download.

Variable env : Env.

Lemma GetContentFile_run drive file_id path w :
  GetContentFile env drive file_id path w =
    match get_content_error env file_id with
    | Some e => (Raise e, called (CallGetContent file_id) w)
    | None =>
        match List.find (fun f => String.eqb (id f) file_id) (remote w) with
        | Some f =>
            (Ret tt, set_local_fs (<[path := content f]> (local_fs w))
                       (called (CallGetContent file_id) w))
        | None =>
            (Raise (Exn ExternalError "File not found"), called (CallGetContent file_id) w)
        end
    end.
Proof.
  unfold GetContentFile, fails, remote_call, write_file, bind, modify, get, raise.
  destruct (get_content_error env file_id); [reflexivity|].
  cbn [remote set_remote_calls].
  destruct (List.find _ (remote w)); reflexivity.
Qed.

Lemma download_image_run drive file_id w :
  download_image env drive file_id w =
    match get_content_error env file_id with
    | Some e => (Ret None, download_failed file_id e (called (CallGetContent file_id) w))
    | None =>
        match List.find (fun f => String.eqb (id f) file_id) (remote w) with
        | None =>
            (Ret None, download_failed file_id (Exn ExternalError "File not found")
                         (called (CallGetContent file_id) w))
        | Some f =>
            match imread env (content f) with
            | Some img =>
                (Ret (Some img),
                 logged INFO (Fmt "Downloaded image ID: {}" [VStr file_id])
                   (fetched f (called (CallGetContent file_id) w)))
            | None =>
                (Ret None,
                 download_failed file_id (Exn ValueError "Downloaded image is None.")
                   (fetched f (called (CallGetContent file_id) w)))
            end
        end
    end.
Proof.
  unfold download_image, try_except. unfold bind at 1. rewrite GetContentFile_run.
  destruct (get_content_error env file_id) as [e|]; [reflexivity|].
  destruct (List.find _ (remote w)) as [f|]; [|reflexivity].
  unfold cv2_imread, os_remove, bind, get, ret, raise, modify.
  cbn [local_fs set_local_fs called set_remote_calls].
  rewrite !lookup_insert_eq. cbn [mbind option_bind].
  destruct (imread env (content f)); reflexivity.
Qed.

(** Whatever happens, [download_image] returns, and no local file that was
    not there before is there afterwards; once the content was fetched,
    temp_image is gone, decoded or not. *)
Lemma download_image_cleans drive file_id w :
  let w' := snd (download_image env drive file_id w) in
  (exists r, fst (download_image env drive file_id w) = Ret r) /\
  annotations w' = annotations w /\
  (forall p, local_fs w !! p = None -> local_fs w' !! p = None) /\
  (forall f, get_content_error env file_id = None ->
             List.find (fun f => String.eqb (id f) file_id) (remote w) = Some f ->
             local_fs w' !! "temp_image" = None).
Proof.
  intros w'. subst w'. rewrite download_image_run.
  destruct (get_content_error env file_id) as [e|].
  { repeat split; eauto. intros; discriminate. }
  destruct (List.find _ (remote w)) as [f|].
  2:{ repeat split; eauto. intros; discriminate. }
  assert (Hgone : forall p, local_fs w !! p = None -> local_fs (fetched f w) !! p = None).
  { intros p Hp. cbn. rewrite lookup_delete. case_decide; [reflexivity|].
    now rewrite lookup_insert_ne. }
  assert (Htmp : local_fs (fetched f w) !! "temp_image" = None).
  { cbn. apply lookup_delete_eq. }
  destruct (imread env (content f)); repeat split; eauto.
Qed.

End Download.

(** ** The other boundaries *)

Lemma returns_never_stops {A} (m : M A) : returns m -> never_stops m.
Proof. intros H w. destruct (H w) as (a & w' & ->). discriminate. Qed.

Lemma never_stops_raise {A} e : never_stops (@raise A e).
Proof. intros w. discriminate. Qed.

Lemma never_stops_bind {A B} (m : M A) (k : A -> M B) :
  never_stops m -> (forall a, never_stops (k a)) -> never_stops (bind m k).
Proof.
  intros Hm Hk w. unfold bind. specialize (Hm w).
  destruct (m w) as [[a|e|] w']; cbn in *; [apply Hk | discriminate | congruence].
Qed.

Lemma never_stops_fails {A} o (k : M A) : never_stops k -> never_stops (fails o k).
Proof. intros Hk. destruct o; [apply never_stops_raise | exact Hk]. Qed.

Lemma returns_ret {A} (a : A) : returns (ret a).
Proof. intros w. eexists _, _. reflexivity. Qed.

Lemma returns_get {A} (f : World -> A) : returns (get f).
Proof. intros w. eexists _, _. reflexivity. Qed.

Lemma returns_modify f : returns (modify f).
Proof. intros w. eexists _, _. reflexivity. Qed.

Lemma returns_bind {A B} (m : M A) (k : A -> M B) :
  returns m -> (forall a, returns (k a)) -> returns (bind m k).
Proof.
  intros Hm Hk w. destruct (Hm w) as (a & w' & Ha).
  rewrite (bind_Ret _ _ _ _ _ Ha). apply Hk.
Qed.

(** A [try] whose body cannot be stopped and whose handler returns, returns. *)
Lemma returns_try_except {A} (body : M A) (handler : exn -> M A) :
  never_stops body ->
  (forall e, returns (handler e)) ->
  returns (try_except body handler).
Proof.
  intros Hb Hh w. unfold try_except. specialize (Hb w).
  destruct (body w) as [[a|e|] w']; cbn in *; [eauto | apply Hh | congruence].
Qed.

Create HintDb boundary.
#[local] Hint Resolve returns_ret returns_get returns_modify never_stops_raise : boundary.

Ltac boundary :=
  repeat first
    [ progress intros
    | apply returns_bind
    | apply never_stops_bind
    | apply never_stops_fails
    | solve [auto with boundary]
    | solve [apply returns_never_stops; auto with boundary]
    | match goal with
      | |- returns (match ?x with _ => _ end) => destruct x
      | |- never_stops (match ?x with _ => _ end) => destruct x
      | |- returns (if ?x then _ else _) => destruct x
      | |- never_stops (if ?x then _ else _) => destruct x
      end ].

Lemma authenticate_drive_returns env : returns (authenticate_drive env).
Proof.
  unfold authenticate_drive, auth_step, remote_call, logging, st.
  apply returns_try_except; boundary.
Qed.

Lemma list_drive_images_returns env drive folder_id :
  returns (list_drive_images env drive folder_id).
Proof.
  intros w. rewrite list_drive_images_run.
  destruct (list_error env _); eexists _, _; reflexivity.
Qed.

Lemma download_image_returns env drive file_id :
  returns (download_image env drive file_id).
Proof.
  intros w. rewrite download_image_run.
  destruct (get_content_error env file_id); [eexists _, _; reflexivity|].
  destruct (List.find _ (remote w)) as [f|]; [|eexists _, _; reflexivity].
  destruct (imread env (content f)); eexists _, _; reflexivity.
Qed.

(** With an argument that has a [name], the boundary of [upload_to_drive]
    holds as well. *)
Lemma upload_named_returns env drive file_obj folder_id :
  (forall p, file_obj <> PathStr p) ->
  returns (upload_to_drive env drive file_obj folder_id).
Proof.
  intros Hobj. destruct file_obj as [p|p|n d]; [now destruct (Hobj p)| |];
    unfold upload_to_drive, upload_body, upload_handler, SetContentFile, Upload,
      getitem_id, getattr_name, read_file, remote_call, logging, st;
    apply returns_try_except; boundary.
Qed.

Lemma upload_stream_fails env drive n d folder_id w :
  fst (upload_to_drive env drive (NamedStream n d) folder_id w) = Ret None.
Proof. reflexivity. Qed.

(** ** The selection mapping *)

Lemma dict_get_set {V} (k k' : string) (v : V) (d : list (string * V)) :
  dict_get k (dict_set k' v d) = if String.eqb k' k then Some v else dict_get k d.
Proof.
  unfold dict_get. induction d as [|[k0 v0] d IH]; cbn.
  - now destruct (String.eqb k' k).
  - destruct (String.eqb_spec k0 k') as [->|Hne]; cbn.
    + now destruct (String.eqb k' k).
    + destruct (String.eqb_spec k0 k) as [->|Hne']; cbn.
      * destruct (String.eqb_spec k' k) as [->|_]; [congruence | reflexivity].
      * exact IH.
Qed.

Lemma dict_keys_set {V} (k : string) (v : V) (d : list (string * V)) :
  dict_keys (dict_set k v d) =
    if bool_decide (k ∈ dict_keys d) then dict_keys d else dict_keys d ++ [k].
Proof.
  unfold dict_keys. induction d as [|[k0 v0] d IH]; cbn; [reflexivity|].
  destruct (String.eqb_spec k0 k) as [->|Hne]; cbn.
  - rewrite bool_decide_eq_true_2; [reflexivity | apply list_elem_of_here].
  - rewrite IH. destruct (bool_decide_reflect (k ∈ map fst d)) as [Hin|Hnin].
    + rewrite bool_decide_eq_true_2; [reflexivity | now apply list_elem_of_further].
    + rewrite bool_decide_eq_false_2; [reflexivity|].
      intros Hin. apply elem_of_cons in Hin as [->|Hin]; [congruence | auto].
Qed.

Lemma image_options_fold files : image_options files = fold_left add_option files [].
Proof. reflexivity. Qed.

(** Files of another title leave the entry of [t] alone. *)
Lemma fold_add_option_other t files : forall d,
  Forall (fun f => title f <> t) files ->
  dict_get t (fold_left add_option files d) = dict_get t d.
Proof.
  induction files as [|f files IH]; intros d Hf; [reflexivity|].
  apply Forall_cons in Hf as [Hne Hf]. cbn [fold_left].
  rewrite (IH _ Hf). unfold add_option. rewrite dict_get_set.
  destruct (String.eqb_spec (title f) t); [congruence | reflexivity].
Qed.

Lemma fold_add_option_keys files : forall d,
  NoDup (dict_keys d) ->
  NoDup (dict_keys (fold_left add_option files d)) /\
  (forall k, k ∈ dict_keys (fold_left add_option files d) <->
             k ∈ dict_keys d \/ exists f, f ∈ files /\ title f = k).
Proof.
  induction files as [|f files IH]; intros d Hd.
  - split; [exact Hd|]. intros k. split; [auto|].
    intros [H|(f & Hf & _)]; [exact H | now apply elem_of_nil in Hf].
  - cbn [fold_left].
    assert (Hk : dict_keys (add_option d f) =
                 if bool_decide (title f ∈ dict_keys d) then dict_keys d
                 else dict_keys d ++ [title f]) by apply dict_keys_set.
    assert (Hd' : NoDup (dict_keys (add_option d f))).
    { rewrite Hk. destruct (bool_decide_reflect (title f ∈ dict_keys d)) as [Hin|Hnin]; [exact Hd|].
      apply NoDup_app. split; [exact Hd|]. split; [|apply NoDup_singleton].
      intros x Hx Hx'. apply list_elem_of_singleton in Hx'. congruence. }
    destruct (IH _ Hd') as [Hnd Hiff]. split; [exact Hnd|].
    intros k. rewrite Hiff, Hk. split.
    + intros [Hin|(g & Hg & Hgk)].
      * destruct (bool_decide_reflect (title f ∈ dict_keys d)); [now left|].
        apply elem_of_app in Hin as [Hin|Hin]; [now left|].
        apply list_elem_of_singleton in Hin. right. exists f. split; [apply list_elem_of_here | congruence].
      * right. exists g. split; [now apply list_elem_of_further | exact Hgk].
    + intros [Hin|(g & Hg & Hgk)].
      * left. destruct (bool_decide_reflect (title f ∈ dict_keys d)); [exact Hin|].
        apply elem_of_app. now left.
      * apply elem_of_cons in Hg as [->|Hg]; [|right; now exists g].
        left. subst k. destruct (bool_decide_reflect (title f ∈ dict_keys d)); [assumption|].
        apply elem_of_app. right. apply list_elem_of_here.
Qed.

(** The last file of a title gives the entry of that title. *)
Lemma image_options_last before f after :
  Forall (fun g => title g <> title f) after ->
  dict_get (title f) (image_options (before ++ f :: after)) = Some (id f).
Proof.
  intros Hafter. rewrite image_options_fold, fold_left_app. cbn [fold_left].
  rewrite (fold_add_option_other _ _ _ Hafter). unfold add_option.
  rewrite dict_get_set. now rewrite String.eqb_refl.
Qed.

Lemma image_options_keys files :
  NoDup (dict_keys (image_options files)) /\
  (forall k, k ∈ dict_keys (image_options files) <-> exists f, f ∈ files /\ title f = k).
Proof.
  rewrite image_options_fold.
  destruct (fold_add_option_keys files [] NoDup_nil_2) as [Hnd Hiff].
  split; [exact Hnd|]. intros k. rewrite Hiff. split; [|auto].
  intros [H|H]; [now apply elem_of_nil in H | exact H].
Qed.

Lemma selectbox_elem_of inp options t : selectbox inp options = Some t -> t ∈ options.
Proof.
  unfold selectbox. destruct (options !! selected_index inp) as [o|] eqn:E.
  - intros [= <-]. eapply list_elem_of_lookup_2, E.
  - destruct options as [|o options]; cbn; [discriminate|].
    intros [= <-]. apply list_elem_of_here.
Qed.

Lemma save_annotation_session t lbl x0 y0 x1 y1 w session :
  annotations w = Some session ->
  let w' := snd (save_annotation t lbl x0 y0 x1 y1 w) in
  annotations w' = Some session \/
  annotations w' = Some (session ++ [{| filename := t; label := lbl; x_min := x0;
                                        y_min := y0; x_max := x1; y_max := y1 |}]).
Proof.
  intros Hs w'. subst w'.
  destruct (Z_lt_dec x0 x1) as [Hx|Hx]; [destruct (Z_lt_dec y0 y1) as [Hy|Hy]|].
  - rewrite (save_annotation_valid _ _ _ _ _ _ _ _ Hs Hx Hy). now right.
  - rewrite save_annotation_invalid by lia. now left.
  - rewrite save_annotation_invalid by lia. now left.
Qed.

(** The editor leaves the session alone or appends one annotation, named
    after the selected option. *)
Lemma annotate_session env inp drive drive_images w session :
  annotations w = Some session ->
  let w' := snd (annotate env inp drive drive_images w) in
  annotations w' = Some session \/
  exists a, annotations w' = Some (session ++ [a]) /\
            filename a ∈ dict_keys (image_options drive_images).
Proof.
  intros Hs w'. subst w'. unfold annotate.
  destruct (selectbox inp (dict_keys (image_options drive_images))) as [t|] eqn:Hsel;
    [|now left].
  apply selectbox_elem_of in Hsel.
  destruct (dict_get t (image_options drive_images)) as [i|]; [|now left].
  rewrite (bind_Ret _ _ w i w eq_refl).
  destruct (download_image_returns env drive i w) as (r & w1 & Hd).
  destruct (download_image_cleans env drive i w) as (_ & Hann & _).
  rewrite Hd in Hann. cbn [snd] in Hann. rewrite Hs in Hann.
  rewrite (bind_Ret _ _ _ _ _ Hd).
  destruct r as [image|]; [|now left].
  erewrite bind_Ret by reflexivity. erewrite bind_Ret by reflexivity.
  cbn zeta. destruct (button inp _); [|now left].
  match goal with
  | |- context [save_annotation ?t ?l ?a ?b ?c ?d ?w2] =>
      destruct (save_annotation_session t l a b c d w2 session Hann) as [H|H]
  end; [now left|].
  right. eexists. split; [exact H | exact Hsel].
Qed.

(** C10: when several listed files have the same title, the mapping from
    titles to ids keeps for that title the id of the last of them; it has
    one entry per title; and an annotation saved by the editor carries as
    filename the title of a listed file. *)
Theorem image_options_last_title (env : Env) (inp : Inputs) (drive : Drive)
    (before after : list DriveFile) (f : DriveFile) (w : World)
    (session : list Annotation) :
  Forall (fun g => title g <> title f) after ->
  annotations w = Some session ->
  let drive_images := before ++ f :: after in
  dict_get (title f) (image_options drive_images) = Some (id f) /\
  NoDup (dict_keys (image_options drive_images)) /\
  (let w' := snd (annotate env inp drive drive_images w) in
   annotations w' = Some session \/
   exists a g, annotations w' = Some (session ++ [a]) /\
               g ∈ drive_images /\ title g = filename a).
Proof.
  intros Hafter Hs drive_images. split; [now apply image_options_last|].
  destruct (image_options_keys drive_images) as [Hnd Hkeys].
  split; [exact Hnd|].
  destruct (annotate_session env inp drive drive_images w session Hs)
    as [H|(a & Ha & Hin)]; [now left|].
  right. apply Hkeys in Hin as (g & Hg & Ht). now exists a, g.
Qed.

(** ** The upload loop *)

(** An uploaded file with an allowed extension is written to a temporary
    file, the upload raises, and the temporary file stays. *)
Lemma upload_one_run env drive uploaded_file w :
  lower (splitext_ext (name uploaded_file)) ∈ ALLOWED_IMAGE_EXTENSIONS ->
  let tmp_file_path :=
    mkstemp env (local_fs w) (lower (splitext_ext (name uploaded_file))) in
  upload_one env drive uploaded_file w =
    (Raise no_name,
     set_local_fs (<[tmp_file_path := Bytes (getbuffer uploaded_file)]>
                     (<[tmp_file_path := Bytes ""]> (local_fs w))) w).
Proof.
  intros Hext tmp. unfold upload_one.
  rewrite bool_decide_eq_true_2 by exact Hext. reflexivity.
Qed.

(** * Concrete runs *)

Example query_text_images :
  query_text (images_query "F") =
    "'F' in parents and trashed=false and (mimeType='image/jpeg' or mimeType='image/png')".
Proof. reflexivity. Qed.

Example splitext_lower : lower (splitext_ext "Holiday.Photo.PNG") = ".png".
Proof. reflexivity. Qed.

(** A whole run in which the user saves one box: the second a.jpg is the
    one downloaded, and the session holds the box. *)
Example script_saves_box :
  let r := script quiet_env save_click (world_of []) in
  fst r = Ret tt /\
  annotations (snd r) = Some [cat_box] /\
  remote_calls (snd r) =
    [CallWebAuth; CallList (images_query GDRIVE_FOLDER_ID); CallGetContent "id-3"] /\
  local_fs (snd r) = ∅.
Proof. vm_compute. repeat split. Qed.

(** A run with one uploaded picture: the exception of the upload leaves
    [main], the top-level handler reports it, and the temporary copy of the
    picture stays behind. *)
Example script_upload_crashes :
  let r := script quiet_env one_upload (world_of []) in
  fst r = Ret tt /\
  last (app_log (snd r)) =
    Some {| level := ERROR;
            log_msg := text "An unexpected error occurred in the Streamlit app." |} /\
  local_fs (snd r) !! "/tmp/tmpq7.png" = Some (Bytes "png").
Proof. vm_compute. repeat split. Qed.

Lemma save_annotation_validates_witness :
  (save_annotation "a.jpg" "" 10 2 10 20 (world_of [cat_box])
     = (Ret tt, rejected "a.jpg" (world_of [cat_box])) /\
   annotations (rejected "a.jpg" (world_of [cat_box])) = Some [cat_box]) /\
  (save_annotation "a.jpg" "" 1 2 10 20 (world_of [cat_box])
     = (Ret tt, accepted {| filename := "a.jpg"; label := ""; x_min := 1; y_min := 2;
                            x_max := 10; y_max := 20 |} [cat_box] (world_of [cat_box]))).
Proof.
  split.
  - apply (save_annotation_validates "a.jpg" "" 10 2 10 20 (world_of [cat_box]) [cat_box]
             eq_refl). left. lia.
  - apply (save_annotation_validates "a.jpg" "" 1 2 10 20 (world_of [cat_box]) [cat_box]
             eq_refl). split; lia.
Defined.

Lemma export_failure_keeps_session_witness :
  annotations (snd (export_annotations quiet_env GoogleDrive (world_of [cat_box; cat_box])))
  = Some [cat_box; cat_box].
Proof.
  apply (export_failure_keeps_session quiet_env GoogleDrive
           (world_of [cat_box; cat_box]) cat_box [cat_box] eq_refl).
Defined.

Lemma export_preserves_order_witness :
  exists w1,
    save_all [cat_box; cat_box] (world_of []) = (Ret tt, w1) /\
    annotations w1 = Some [cat_box; cat_box] /\
    local_fs (snd (export_annotations quiet_env GoogleDrive w1)) !! "/tmp/tmpq7.csv"
      = Some (Csv ["filename"; "label"; "x_min"; "y_min"; "x_max"; "y_max"]
                  [[CStr "a.jpg"; CStr "cat"; CInt 1; CInt 2; CInt 10; CInt 20];
                   [CStr "a.jpg"; CStr "cat"; CInt 1; CInt 2; CInt 10; CInt 20]]).
Proof.
  refine (export_preserves_order quiet_env GoogleDrive (world_of []) []
            [cat_box; cat_box] eq_refl _ _).
  - repeat constructor.
  - discriminate.
Defined.

Lemma export_csv_shape_witness :
  exists records,
    local_fs (snd (export_annotations quiet_env GoogleDrive (world_of [cat_box; cat_box])))
      !! "/tmp/tmpq7.csv"
      = Some (Csv ["filename"; "label"; "x_min"; "y_min"; "x_max"; "y_max"] records) /\
    length records = 2%nat.
Proof.
  apply (export_csv_shape quiet_env GoogleDrive (world_of [cat_box; cat_box])
           cat_box [cat_box] eq_refl).
Defined.

Lemma export_empty_is_local_witness :
  remote_calls (snd (export_annotations quiet_env GoogleDrive (world_of []))) = [] /\
  annotations (snd (export_annotations quiet_env GoogleDrive (world_of []))) = Some [].
Proof.
  destruct (export_empty_is_local quiet_env GoogleDrive (world_of []) eq_refl)
    as (_ & Hcalls & _ & _ & _ & Hs).
  split; [exact Hcalls | exact Hs].
Defined.

Lemma list_drive_images_exact_witness :
  exists found w',
    list_drive_images quiet_env GoogleDrive GDRIVE_FOLDER_ID (world_of []) = (Ret found, w') /\
    Permutation found [cat1; cat2] /\ length found = 2%nat.
Proof.
  refine (list_drive_images_exact quiet_env GoogleDrive GDRIVE_FOLDER_ID (world_of [])
            [cat1; cat2] [notes] _ _ _).
  - apply perm_skip, perm_swap.
  - repeat apply Forall_cons_2; [| |apply Forall_nil_2];
      (split; [apply list_elem_of_here|]; split; [reflexivity|]);
      [left | right]; reflexivity.
  - apply Forall_cons_2; [|apply Forall_nil_2].
    intros (_ & _ & [H|H]); discriminate H.
Defined.

Lemma image_options_last_title_witness :
  dict_get "a.jpg" (image_options [cat1; notes; cat2]) = Some "id-3" /\
  NoDup (dict_keys (image_options [cat1; notes; cat2])) /\
  (let w' := snd (annotate quiet_env save_click GoogleDrive [cat1; notes; cat2] (world_of [])) in
   annotations w' = Some [] \/
   exists a g, annotations w' = Some ([] ++ [a]) /\
               g ∈ [cat1; notes; cat2] /\ title g = filename a).
Proof.
  refine (image_options_last_title quiet_env save_click GoogleDrive
            [cat1; notes] [] cat2 (world_of []) [] _ eq_refl).
  constructor.
Defined.


(** * Further properties of the script *)

Lemma bind_Raise_run {A B} (m : M A) (k : A -> M B) w e w' :
  m w = (Raise e, w') -> bind m k w = (Raise e, w').
Proof. intros H. unfold bind. now rewrite H. Qed.

(** ** What a computation leaves alone *)

Section Keeps.

Context {B : Type} (f : World -> B).

Lemma keeps_ret {A} (a : A) : keeps f (ret a).
Proof. intros w. reflexivity. Qed.

Lemma keeps_raise {A} e : keeps f (@raise A e).
Proof. intros w. reflexivity. Qed.

Lemma keeps_st_stop {A} : keeps f (@st_stop A).
Proof. intros w. reflexivity. Qed.

Lemma keeps_get {A} (g : World -> A) : keeps f (get g).
Proof. intros w. reflexivity. Qed.

Lemma keeps_modify g : (forall w, f (g w) = f w) -> keeps f (modify g).
Proof. intros H w. apply H. Qed.

Lemma keeps_bind {A C} (m : M A) (k : A -> M C) :
  keeps f m -> (forall a, keeps f (k a)) -> keeps f (bind m k).
Proof.
  intros Hm Hk w. unfold bind. specialize (Hm w).
  destruct (m w) as [[a|e|] w']; cbn [snd] in *; [|exact Hm|exact Hm].
  now rewrite Hk.
Qed.

Lemma keeps_try_except {A} (body : M A) (handler : exn -> M A) :
  keeps f body -> (forall e, keeps f (handler e)) -> keeps f (try_except body handler).
Proof.
  intros Hb Hh w. unfold try_except. specialize (Hb w).
  destruct (body w) as [[a|e|] w']; cbn [snd] in *; [exact Hb| |exact Hb].
  now rewrite Hh.
Qed.

Lemma keeps_fails {A} o (k : M A) : keeps f k -> keeps f (fails o k).
Proof. intros Hk. destruct o; [apply keeps_raise | exact Hk]. Qed.

Lemma keeps_for_each {A} (l : list A) (body : A -> M unit) :
  (forall x, keeps f (body x)) -> keeps f (for_each l body).
Proof.
  intros Hb. induction l as [|x l IH]; cbn [for_each].
  - apply keeps_ret.
  - apply keeps_bind; [apply Hb | intros _; exact IH].
Qed.

Lemma keeps_upload_str env drive path folder_id :
  keeps f (upload_to_drive env drive (PathStr path) folder_id).
Proof. intros w. now rewrite upload_str_raises. Qed.

End Keeps.

Ltac frame :=
  repeat first
    [ progress intros
    | apply keeps_upload_str
    | apply keeps_bind
    | apply keeps_try_except
    | apply keeps_fails
    | apply keeps_for_each
    | apply keeps_ret
    | apply keeps_raise
    | apply keeps_st_stop
    | apply keeps_get
    | solve [apply keeps_modify; intros; reflexivity]
    | solve [apply keeps_modify; intros; unfold inserts_sent, downloads_sent; cbn;
             rewrite List.filter_app; cbn; apply app_nil_r]
    | match goal with
      | |- keeps _ (match ?x with _ => _ end) => destruct x
      | |- keeps _ (if ?x then _ else _) => destruct x
      | |- keeps _ (let _ := _ in _) => cbv zeta
      end ].

Ltac unfold_script :=
  unfold script, main, export_annotations, annotate, save_annotation, upload_section,
    upload_one, sidebar_gallery, show_in_sidebar, NamedTemporaryFile, init_session,
    session_append, session_annotations, download_image, list_drive_images,
    authenticate_drive, auth_step, to_csv, cv2_imread, GetContentFile, ListFile_GetList,
    os_remove, read_file, write_file, remote_call, logging, st.

Lemma script_keeps_remote env inp : keeps remote (script env inp).
Proof. unfold_script. frame. Qed.

Lemma script_keeps_inserts env inp : keeps inserts_sent (script env inp).
Proof. unfold_script. frame. Qed.

(** X3: whatever the service answers and whatever the user does, a run of the
    script leaves the remote store as it was and sends no upload request:
    every upload that [main] starts is given a string and ends before it
    reaches the service. *)
Theorem script_never_uploads (env : Env) (inp : Inputs) (w : World) :
  remote (snd (script env inp w)) = remote w /\
  inserts_sent (snd (script env inp w)) = inserts_sent w.
Proof. split; [apply script_keeps_remote | apply script_keeps_inserts]. Qed.

(** ** How a run ends *)

Lemma never_stops_ret {A} (a : A) : never_stops (ret a).
Proof. intros w. discriminate. Qed.

Lemma never_stops_try_except {A} (body : M A) (handler : exn -> M A) :
  never_stops body -> (forall e, never_stops (handler e)) ->
  never_stops (try_except body handler).
Proof.
  intros Hb Hh w. unfold try_except. specialize (Hb w).
  destruct (body w) as [[a|e|] w']; cbn in *; [discriminate | apply Hh | congruence].
Qed.

Lemma never_stops_for_each {A} (l : list A) (body : A -> M unit) :
  (forall x, never_stops (body x)) -> never_stops (for_each l body).
Proof.
  intros Hb. induction l as [|x l IH]; cbn [for_each].
  - apply never_stops_ret.
  - apply never_stops_bind; [apply Hb | intros _; exact IH].
Qed.

Lemma never_stops_upload env drive file_obj folder_id :
  never_stops (upload_to_drive env drive file_obj folder_id).
Proof.
  destruct file_obj as [p|p|n d].
  - intros w. now rewrite upload_str_raises.
  - apply returns_never_stops, upload_named_returns. discriminate.
  - apply returns_never_stops, upload_named_returns. discriminate.
Qed.

Ltac nostop :=
  repeat first
    [ progress intros
    | apply never_stops_upload
    | apply never_stops_bind
    | apply never_stops_try_except
    | apply never_stops_fails
    | apply never_stops_for_each
    | apply never_stops_ret
    | apply never_stops_raise
    | solve [apply returns_never_stops; auto with boundary]
    | match goal with
      | |- never_stops (match ?x with _ => _ end) => destruct x
      | |- never_stops (if ?x then _ else _) => destruct x
      | |- never_stops (let _ := _ in _) => cbv zeta
      end ].

(** Everything of [main] that follows the authentication check. *)
Lemma main_after_auth env inp w :
  main env inp w =
    match authenticate_drive env w with
    | (Ret None, w1) => (Stop, w1)
    | (Ret (Some d), w1) =>
        (drive <- ret d ;;
         st Page st_page_config (text "Image Annotation Tool") ;;
         st Page st_title (text "Image Annotation Tool") ;;
         st Page st_write (text "Upload images to annotate and save annotations to Google Drive.") ;;
         st Sidebar st_header (text "Google Drive Images") ;;
         drive_images <- list_drive_images env drive GDRIVE_FOLDER_ID ;;
         sidebar_gallery env drive_images ;;
         st Sidebar st_header (text "Upload New Images") ;;
         upload_section env inp drive ;;
         st Sidebar st_markdown (text "---") ;;
         st Sidebar st_write (text "Developed by [Your Name](https://yourwebsite.com)") ;;
         st Page st_header (text "Annotate Images") ;;
         init_session ;;
         match drive_images with
         | _ :: _ => annotate env inp drive drive_images
         | [] => st Page st_info (text "No images available for annotation. Please upload images using the sidebar.")
         end ;;
         (if button inp "Save All Annotations to Google Drive"
          then export_annotations env drive
          else ret tt) ;;
         st Page st_markdown (text "---") ;;
         st Page st_write (text "Developed by [Your Name](https://yourwebsite.com)")) w1
    | (Raise e, w1) => (Raise e, w1)
    | (Stop, w1) => (Stop, w1)
    end.
Proof.
  unfold main. unfold bind at 1.
  destruct (authenticate_drive env w) as [[[d|]|e|] w1]; reflexivity.
Qed.

Lemma script_outcome env inp w :
  fst (script env inp w) = Ret tt \/ fst (script env inp w) = Stop.
Proof.
  unfold script, try_except.
  destruct (main env inp w) as [[[]|e|] w']; cbn; auto.
Qed.

Lemma script_stops_iff env inp w :
  fst (script env inp w) = Stop <-> fst (authenticate_drive env w) = Ret None.
Proof.
  unfold script, try_except. rewrite main_after_auth.
  destruct (authenticate_drive_returns env w) as (r & w1 & Hauth). rewrite Hauth.
  destruct r as [d|]; cbn [fst]; [|now split].
  split; [|discriminate]. intros Hstop. exfalso.
  match type of Hstop with
  | fst (let (_, _) := ?m w1 in _) = _ =>
      assert (Hns : never_stops m) by (unfold_script; nostop);
      specialize (Hns w1); destruct (m w1) as [[[]|e|] w2]; cbn in *; congruence
  end.
Qed.

(** X2: a run of the script ends normally or by [st.stop()], never with an
    exception; it is stopped exactly when [authenticate_drive] has returned
    [None], and then nothing has been listed, downloaded or initialised. *)
Theorem script_ends_or_stops (env : Env) (inp : Inputs) (w : World) :
  (forall e, fst (script env inp w) <> Raise e) /\
  (fst (script env inp w) = Ret tt \/ fst (script env inp w) = Stop) /\
  (fst (script env inp w) = Stop <-> fst (authenticate_drive env w) = Ret None) /\
  (fst (authenticate_drive env w) = Ret None ->
   snd (script env inp w) = snd (authenticate_drive env w)).
Proof.
  split; [|split; [apply script_outcome | split; [apply script_stops_iff|]]].
  - intros e. destruct (script_outcome env inp w) as [H|H]; rewrite H; discriminate.
  - intros Hnone. unfold script, try_except. rewrite main_after_auth.
    destruct (authenticate_drive env w) as [[[d|]|e|] w1]; cbn in Hnone; try discriminate.
    reflexivity.
Qed.

(** ** Authentication *)

Lemma authenticate_drive_ok env w :
  Forall (fun s => auth_error env s = None) (auth_steps (credentials_json w)) ->
  fst (authenticate_drive env w) = Ret (Some GoogleDrive) /\
  is_Some (credentials_json (snd (authenticate_drive env w))) /\
  screen (snd (authenticate_drive env w)) = screen w.
Proof.
  unfold auth_steps. intros H.
  apply Forall_cons in H as [H1 H]. apply Forall_cons in H as [H2 H].
  apply Forall_cons in H as [H3 _].
  unfold authenticate_drive, auth_step, try_except, bind, get, fails.
  rewrite H1, H3. cbn.
  destruct (credentials_json w) as [[[|]]|]; cbn in *; rewrite H2; cbn; eauto.
Qed.

Lemma authenticate_drive_failed env w :
  Exists (fun s => auth_error env s <> None) (auth_steps (credentials_json w)) ->
  fst (authenticate_drive env w) = Ret None /\
  credentials_json (snd (authenticate_drive env w)) = credentials_json w /\
  exists e,
    screen (snd (authenticate_drive env w)) = screen w ++
      [{| place := Page; element := st_error;
          shown_msg := text "Failed to authenticate with Google Drive. Please check the logs." |}] /\
    app_log (snd (authenticate_drive env w)) = app_log w ++
      [{| level := ERROR;
          log_msg := Fmt "Google Drive authentication failed: {}" [VExn e] |}].
Proof.
  unfold auth_steps. intros H.
  unfold authenticate_drive, auth_step, try_except, bind, get, fails.
  destruct (auth_error env LoadCredentialsFile) as [e1|] eqn:H1; cbn; [eauto|].
  destruct (credentials_json w) as [[[|]]|] eqn:Hc; cbn in *.
  - destruct (auth_error env Refresh) as [e2|] eqn:H2; cbn; [eauto|].
    destruct (auth_error env SaveCredentialsFile) as [e3|] eqn:H3; cbn; [eauto|].
    exfalso. repeat (apply Exists_cons in H as [H|H]; [congruence|]).
    now apply Exists_nil in H.
  - destruct (auth_error env Authorize) as [e2|] eqn:H2; cbn; [eauto|].
    destruct (auth_error env SaveCredentialsFile) as [e3|] eqn:H3; cbn; [eauto|].
    exfalso. repeat (apply Exists_cons in H as [H|H]; [congruence|]).
    now apply Exists_nil in H.
  - destruct (auth_error env LocalWebserverAuth) as [e2|] eqn:H2; cbn; [eauto|].
    destruct (auth_error env SaveCredentialsFile) as [e3|] eqn:H3; cbn; [eauto|].
    exfalso. repeat (apply Exists_cons in H as [H|H]; [congruence|]).
    now apply Exists_nil in H.
Qed.

Lemma authenticate_drive_offline env w c :
  credentials_json w = Some c -> access_token_expired c = false ->
  remote_calls (snd (authenticate_drive env w)) = remote_calls w.
Proof.
  intros Hc Hx.
  unfold authenticate_drive, auth_step, try_except, bind, get, fails.
  destruct (auth_error env LoadCredentialsFile); cbn; [reflexivity|].
  rewrite Hc, Hx. cbn.
  destruct (auth_error env Authorize); cbn; [reflexivity|].
  destruct (auth_error env SaveCredentialsFile); reflexivity.
Qed.

(** X1: [authenticate_drive] loads the credentials, then runs the web flow
    (no credentials), refreshes (expired) or authorizes, then saves.  If none
    of these calls raises, it returns the drive, credentials.json exists and
    nothing is shown; if one raises, it returns [None], shows and logs the
    failure and leaves credentials.json as it was.  With stored credentials
    that have not expired it sends no request. *)
Theorem authenticate_drive_outcome (env : Env) (w : World) :
  let steps := auth_steps (credentials_json w) in
  let r := authenticate_drive env w in
  (Forall (fun s => auth_error env s = None) steps ->
     fst r = Ret (Some GoogleDrive) /\
     is_Some (credentials_json (snd r)) /\
     screen (snd r) = screen w) /\
  (Exists (fun s => auth_error env s <> None) steps ->
     fst r = Ret None /\
     credentials_json (snd r) = credentials_json w /\
     exists e,
       screen (snd r) = screen w ++
         [{| place := Page; element := st_error;
             shown_msg := text "Failed to authenticate with Google Drive. Please check the logs." |}] /\
       app_log (snd r) = app_log w ++
         [{| level := ERROR;
             log_msg := Fmt "Google Drive authentication failed: {}" [VExn e] |}]) /\
  (forall c, credentials_json w = Some c -> access_token_expired c = false ->
     remote_calls (snd r) = remote_calls w).
Proof.
  intros steps r. split; [apply authenticate_drive_ok|].
  split; [apply authenticate_drive_failed | apply authenticate_drive_offline].
Qed.

(** ** The session across a run *)

Lemma annotate_outcome env inp drive drive_images w session :
  annotations w = Some session ->
  let w' := snd (annotate env inp drive drive_images w) in
  annotations w' = Some session \/
  exists a selected_id image,
    annotations w' = Some (session ++ [a]) /\
    dict_get (filename a) (image_options drive_images) = Some selected_id /\
    fst (download_image env drive selected_id w) = Ret (Some image) /\
    label a = text_input inp ("label_" +:+ filename a) /\
    0 <= x_min a < x_max a /\ x_max a <= width image /\
    0 <= y_min a < y_max a /\ y_max a <= height image.
Proof.
  intros Hs w'. subst w'. unfold annotate.
  destruct (selectbox inp (dict_keys (image_options drive_images))) as [t|]; [|now left].
  destruct (dict_get t (image_options drive_images)) as [i|] eqn:Hget; [|now left].
  rewrite (bind_Ret _ _ w i w eq_refl).
  destruct (download_image_returns env drive i w) as (r & w1 & Hd).
  destruct (download_image_cleans env drive i w) as (_ & Hann & _).
  rewrite Hd in Hann. cbn [snd] in Hann. rewrite Hs in Hann.
  rewrite (bind_Ret _ _ _ _ _ Hd).
  destruct r as [image|]; [|now left].
  erewrite bind_Ret by reflexivity. erewrite bind_Ret by reflexivity.
  cbn zeta. destruct (button inp _); [|now left].
  match goal with
  | |- context [save_annotation ?t ?l ?a ?b ?c ?d ?w2] =>
      assert (Hs2 : annotations w2 = Some session) by exact Hann;
      destruct (Z_lt_dec a c) as [Hx|Hx]; [destruct (Z_lt_dec b d) as [Hy|Hy]|];
      [ rewrite (save_annotation_valid t l a b c d w2 session Hs2 Hx Hy)
      | rewrite (save_annotation_invalid t l a b c d w2) by lia; now left
      | rewrite (save_annotation_invalid t l a b c d w2) by lia; now left ]
  end.
  right. eexists _, i, image. split; [reflexivity|]. cbn [filename label x_min x_max y_min y_max].
  split; [exact Hget|]. split; [now rewrite Hd|]. split; [reflexivity|].
  unfold number_input in *. lia.
Qed.

Lemma session_list_eq w w' : annotations w' = annotations w -> session_list w' = session_list w.
Proof. unfold session_list. now intros ->. Qed.

Lemma session_step_same l w' : session_list w' = l -> session_step l w'.
Proof. now left. Qed.

(** A step that keeps the session, inside a run. *)
Lemma session_step_keeps {A C} (m : M A) (k : A -> M C) l w :
  keeps annotations m ->
  session_list w = l ->
  (forall a w1, annotations w1 = annotations w -> session_step l (snd (k a w1))) ->
  session_step l (snd (bind m k w)).
Proof.
  intros Hm Hl Hk. unfold bind. specialize (Hm w).
  destruct (m w) as [[a|e|] w1]; cbn [snd] in *.
  - now apply Hk.
  - left. now rewrite (session_list_eq _ _ Hm).
  - left. now rewrite (session_list_eq _ _ Hm).
Qed.

(** Once the editor has run, the rest of the run keeps the session. *)
Lemma session_step_then {A C} (m : M A) (k : A -> M C) l w :
  session_step l (snd (m w)) ->
  (forall a, keeps annotations (k a)) ->
  session_step l (snd (bind m k w)).
Proof.
  intros Hm Hk. unfold bind.
  destruct (m w) as [[a|e|] w1]; cbn [snd] in *; try exact Hm.
  unfold session_step in *. now rewrite (session_list_eq _ _ (Hk a w1)).
Qed.

Lemma export_keeps_annotations env drive : keeps annotations (export_annotations env drive).
Proof.
  intros w. destruct (annotations w) as [[|a l]|] eqn:Hs.
  - now rewrite (export_empty_run env drive w Hs).
  - now rewrite (export_nonempty_run env drive w a l Hs).
  - unfold export_annotations, session_annotations, bind, get. now rewrite Hs.
Qed.

Lemma init_session_run w :
  exists w1, init_session w = (Ret tt, w1) /\ annotations w1 = Some (session_list w).
Proof.
  unfold init_session, session_list, bind, get.
  destruct (annotations w) as [l|] eqn:Hs; eexists; (split; [reflexivity|]); cbn; auto.
Qed.

Lemma main_session_step env inp w : session_step (session_list w) (snd (main env inp w)).
Proof.
  rewrite main_after_auth.
  assert (Hauth : keeps annotations (authenticate_drive env)) by (unfold_script; frame).
  specialize (Hauth w).
  destruct (authenticate_drive env w) as [[[d|]|e|] w1]; cbn [snd] in *;
    try (left; now apply session_list_eq).
  apply session_list_eq in Hauth. revert Hauth. generalize (session_list w) as l.
  intros l Hl.
  rewrite (bind_Ret _ _ w1 d w1 eq_refl).
  do 4 (apply session_step_keeps; [unfold_script; frame | assumption | intros _ ? ?;
        match goal with H : annotations _ = annotations _ |- _ =>
          apply session_list_eq in H; rewrite Hl in H; clear Hl; rename H into Hl end]).
  apply session_step_keeps; [unfold_script; frame | assumption |].
  intros drive_images wl Hwl. apply session_list_eq in Hwl. rewrite Hl in Hwl. clear Hl.
  do 6 (apply session_step_keeps; [unfold_script; frame | assumption | intros _ ? ?;
        match goal with H : annotations _ = annotations _ |- _ =>
          apply session_list_eq in H; rewrite Hwl in H; clear Hwl; rename H into Hwl end]).
  match goal with |- session_step _ (snd (bind _ _ ?w3)) =>
    destruct (init_session_run w3) as (wi & Hinit & Hwi) end.
  rewrite (bind_Ret _ _ _ _ _ Hinit). rewrite Hwl in Hwi.
  apply session_step_then.
  - destruct drive_images as [|f files].
    + left. unfold session_list. cbn. now rewrite Hwi.
    + destruct (annotate_outcome env inp d (f :: files) wi l Hwi)
        as [H|(a & i & img & H & _ & _ & _ & Hx & _ & Hy & _)].
      * left. unfold session_list. now rewrite H.
      * right. exists a. unfold session_list. rewrite H. split; [reflexivity|].
        split; lia.
  - intros _. apply keeps_bind; [|unfold st; frame].
    destruct (button inp _); [apply export_keeps_annotations | apply keeps_ret].
Qed.

(** X4: a run of the script never removes an annotation from the session
    and never reorders it: the session afterwards is the session before,
    or the session before followed by one annotation that satisfies
    [x_min < x_max] and [y_min < y_max].  So a session of valid annotations
    stays one, and the export button never clears it. *)
Theorem script_session_step (env : Env) (inp : Inputs) (w : World) :
  let w' := snd (script env inp w) in
  session_step (session_list w) w' /\
  (Forall valid (session_list w) -> Forall valid (session_list w')).
Proof.
  intros w'.
  assert (Hstep : session_step (session_list w) w').
  { subst w'. pose proof (main_session_step env inp w) as Hmain.
    unfold script, try_except.
    destruct (main env inp w) as [[[]|e|] w1]; cbn [snd] in *; exact Hmain. }
  split; [exact Hstep|]. intros Hv.
  destruct Hstep as [->|(a & -> & Ha)]; [exact Hv|].
  apply Forall_app. split; [exact Hv|]. now apply Forall_cons_2.
Qed.

(** X5: an annotation that the editor saves lies within the picture that was
    downloaded for its title: [0 <= x_min < x_max <= width] and
    [0 <= y_min < y_max <= height]; its label is the text of the label
    field of that title. *)
Theorem editor_box_within_image (env : Env) (inp : Inputs) (drive : Drive)
    (drive_images : list DriveFile) (w : World) (session : list Annotation) :
  annotations w = Some session ->
  let w' := snd (annotate env inp drive drive_images w) in
  annotations w' = Some session \/
  exists a selected_id image,
    annotations w' = Some (session ++ [a]) /\
    dict_get (filename a) (image_options drive_images) = Some selected_id /\
    fst (download_image env drive selected_id w) = Ret (Some image) /\
    label a = text_input inp ("label_" +:+ filename a) /\
    0 <= x_min a < x_max a /\ x_max a <= width image /\
    0 <= y_min a < y_max a /\ y_max a <= height image.
Proof. apply annotate_outcome. Qed.

(** ** The sidebar *)

Lemma show_in_sidebar_run env img_file w :
  show_in_sidebar env img_file w = (Ret tt, thumbnail env w img_file).
Proof.
  unfold show_in_sidebar, thumbnail, try_except, fails.
  destruct (image_error env img_file); reflexivity.
Qed.

Lemma gallery_loop env imgs : forall w,
  for_each imgs (show_in_sidebar env) w = (Ret tt, fold_left (thumbnail env) imgs w).
Proof.
  induction imgs as [|f imgs IH]; intros w; [reflexivity|].
  cbn [for_each fold_left]. rewrite (bind_Ret _ _ _ _ _ (show_in_sidebar_run env f w)).
  apply IH.
Qed.

Lemma thumbnails_count env imgs : forall w,
  let w' := fold_left (thumbnail env) imgs w in
  length (screen w') = (length (screen w) + length imgs)%nat /\
  length (app_log w') = (length (app_log w) + length (broken env imgs))%nat /\
  remote_calls w' = remote_calls w /\ annotations w' = annotations w /\
  local_fs w' = local_fs w.
Proof.
  induction imgs as [|f imgs IH]; intros w; cbn zeta.
  - cbn. rewrite !Nat.add_0_r. auto.
  - cbn [fold_left]. destruct (IH (thumbnail env w f)) as (Hs & Hl & Hc & Ha & Hf).
    rewrite Hs, Hl, Hc, Ha, Hf. unfold thumbnail, broken. cbn [List.filter].
    destruct (image_error env f) as [e|]; cbn; rewrite ?length_app; cbn;
      repeat split; lia.
Qed.

(** X6: the gallery always returns: a picture that cannot be shown is logged
    and replaced by an error element, and the pictures after it are still
    shown.  The sidebar gets one element per listed picture after the line
    that counts them; the gallery sends no request and touches neither the
    session nor a local file. *)
Theorem sidebar_gallery_survives (env : Env) (drive_images : list DriveFile) (w : World) :
  let w' := snd (sidebar_gallery env drive_images w) in
  fst (sidebar_gallery env drive_images w) = Ret tt /\
  length (screen w') = (length (screen w) + 1 + length drive_images)%nat /\
  length (app_log w') = (length (app_log w) + length (broken env drive_images))%nat /\
  remote_calls w' = remote_calls w /\ annotations w' = annotations w /\
  local_fs w' = local_fs w.
Proof.
  intros w'. subst w'. unfold sidebar_gallery.
  destruct drive_images as [|f imgs].
  - cbn. rewrite length_app. cbn. repeat split; lia.
  - erewrite bind_Ret by reflexivity. rewrite gallery_loop. cbn [fst snd].
    split; [reflexivity|].
    match goal with
    | |- context [fold_left (thumbnail env) ?l ?w0] =>
        destruct (thumbnails_count env l w0) as (Hs & Hl & Hc & Ha & Hf)
    end.
    rewrite Hs, Hl, Hc, Ha, Hf. cbn. rewrite length_app. cbn. repeat split; lia.
Qed.

(** ** The upload loop *)

Lemma upload_one_skips env drive uploaded_file w :
  ~ supported uploaded_file ->
  upload_one env drive uploaded_file w = (Ret tt, skipped w uploaded_file).
Proof.
  intros Hext. unfold upload_one.
  rewrite bool_decide_eq_false_2 by exact Hext. reflexivity.
Qed.

Lemma upload_loop_skips env drive files : forall w,
  Forall (fun f => ~ supported f) files ->
  for_each files (upload_one env drive) w = (Ret tt, fold_left skipped files w).
Proof.
  induction files as [|f files IH]; intros w Hf; [reflexivity|].
  apply Forall_cons in Hf as [Hf Hfs]. cbn [for_each fold_left].
  rewrite (bind_Ret _ _ _ _ _ (upload_one_skips env drive f w Hf)). now apply IH.
Qed.

Lemma skipped_frame files : forall w,
  let w' := fold_left skipped files w in
  local_fs w' = local_fs w /\ remote_calls w' = remote_calls w /\
  annotations w' = annotations w /\
  length (screen w') = (length (screen w) + length files)%nat.
Proof.
  induction files as [|f files IH]; intros w; cbn zeta.
  - cbn. rewrite Nat.add_0_r. auto.
  - cbn [fold_left]. destruct (IH (skipped w f)) as (Hf & Hc & Ha & Hs).
    rewrite Hf, Hc, Ha, Hs. cbn. rewrite length_app. cbn. repeat split; lia.
Qed.

(** X7: the upload loop skips every file whose extension is not .jpg, .jpeg
    or .png with one warning each and without creating a file; at the first
    file with such an extension it writes the temporary copy, the upload
    raises, and the loop ends there: the copy stays, the files after it are
    not looked at, and no request has been sent. *)
Theorem upload_loop_ends_at_first_supported (env : Env) (inp : Inputs) (drive : Drive)
    (w : World) (unsupported rest : list UploadedFile) (f : UploadedFile) :
  uploaded_files inp = unsupported ++ f :: rest ->
  Forall (fun g => ~ supported g) unsupported ->
  supported f ->
  let tmp_file_path := mkstemp env (local_fs w) (lower (splitext_ext (name f))) in
  let w' := snd (upload_section env inp drive w) in
  fst (upload_section env inp drive w) = Raise no_name /\
  local_fs w' = <[tmp_file_path := Bytes (getbuffer f)]>
                  (<[tmp_file_path := Bytes ""]> (local_fs w)) /\
  length (screen w') = (length (screen w) + length unsupported)%nat /\
  remote_calls w' = remote_calls w /\
  annotations w' = annotations w.
Proof.
  intros Hfiles Hskip Hf tmp w'. subst w' tmp. unfold upload_section. rewrite Hfiles.
  assert (Happ : forall (l1 l2 : list UploadedFile) w0 w1,
            for_each l1 (upload_one env drive) w0 = (Ret tt, w1) ->
            for_each (l1 ++ l2) (upload_one env drive) w0
            = for_each l2 (upload_one env drive) w1).
  { induction l1 as [|x l1 IH]; intros l2 w0 w1 H; cbn [for_each app] in *.
    - now inversion H.
    - unfold bind in *. destruct (upload_one env drive x w0) as [[[]|e|] w2];
        [now apply IH | discriminate | discriminate]. }
  rewrite (Happ _ _ _ _ (upload_loop_skips env drive unsupported w Hskip)).
  cbn [for_each].
  destruct (skipped_frame unsupported w) as (Hfs & Hc & Ha & Hs).
  rewrite (bind_Raise_run _ _ _ _ _ (upload_one_run env drive f _ Hf)).
  cbn [fst snd local_fs set_local_fs]. rewrite Hfs. repeat split; assumption.
Qed.

(** When no uploaded file has a supported extension, the loop returns and
    has only warned. *)
Lemma upload_loop_all_skipped env inp drive w :
  Forall (fun g => ~ supported g) (uploaded_files inp) ->
  upload_section env inp drive w = (Ret tt, fold_left skipped (uploaded_files inp) w).
Proof. apply upload_loop_skips. Qed.

(** ** Uploading an object that has a name *)

Lemma upload_path_run env drive p folder_id w :
  upload_to_drive env drive (PathLike p) folder_id w =
    match local_fs w !! p with
    | None => (Ret None, upload_failed (basename p) (Exn FileNotFoundError p) w)
    | Some d =>
        match insert_error env (basename p) with
        | Some e =>
            (Ret None, upload_failed (basename p) e (called (CallInsert (basename p)) w))
        | None =>
            (Ret (Some (fresh_id env (remote w))), uploaded env p folder_id d w)
        end
    end.
Proof.
  unfold upload_to_drive, upload_body, upload_handler, SetContentFile, Upload,
    getitem_id, getattr_name, read_file, remote_call, try_except, fails,
    bind, get, ret, raise, modify, logging, st, uploaded, uploaded_file.
  destruct (local_fs w !! p) as [d|]; [|reflexivity].
  destruct (truthy folder_id); cbn;
    destruct (insert_error env (basename p)); reflexivity.
Qed.

(** X8: given a path object whose file exists, and a service that accepts
    the upload, [upload_to_drive] returns the id that the service gave and
    adds one file to the remote store, after the files that were there: its
    title is the last component of the path, its content the content of the
    local file, its parent the folder (none without a folder id).  The local
    file stays. *)
Theorem upload_path_creates_file (env : Env) (drive : Drive) (p : string)
    (folder_id : option string) (d : FileData) (w : World) :
  local_fs w !! p = Some d ->
  insert_error env (basename p) = None ->
  let r := upload_to_drive env drive (PathLike p) folder_id w in
  fst r = Ret (Some (fresh_id env (remote w))) /\
  remote (snd r) = remote w ++
    [{| id := fresh_id env (remote w); title := basename p;
        mimeType := guess_type env p;
        parents := if truthy folder_id then [default "" folder_id] else [];
        trashed := false; content := d |}] /\
  remote_calls (snd r) = remote_calls w ++ [CallInsert (basename p)] /\
  local_fs (snd r) = local_fs w.
Proof.
  intros Hfile Hok r. subst r. rewrite upload_path_run, Hfile, Hok.
  repeat split.
Qed.

(** X9: on a path object, [upload_to_drive] returns [None] exactly when the
    local file is missing or the service refuses the upload; the remote
    store is then as before, and the failure is logged and shown under the
    name of the file.  A missing file is noticed before any request is
    sent. *)
Theorem upload_path_failure_reported (env : Env) (drive : Drive) (p : string)
    (folder_id : option string) (w : World) :
  let r := upload_to_drive env drive (PathLike p) folder_id w in
  (fst r = Ret None <->
   local_fs w !! p = None \/ insert_error env (basename p) <> None) /\
  (fst r = Ret None ->
   remote (snd r) = remote w /\
   exists e,
     app_log (snd r) = app_log w ++
       [{| level := ERROR;
           log_msg := Fmt "Failed to upload {} to Google Drive: {}"
                          [VStr (basename p); VExn e] |}] /\
     screen (snd r) = screen w ++
       [{| place := Page; element := st_error;
           shown_msg := Fmt "Failed to upload {} to Google Drive." [VStr (basename p)] |}]) /\
  (local_fs w !! p = None -> remote_calls (snd r) = remote_calls w).
Proof.
  intros r. subst r. rewrite upload_path_run.
  destruct (local_fs w !! p) as [d|] eqn:Hfile.
  - destruct (insert_error env (basename p)) as [e|] eqn:Herr; cbn [fst snd].
    + split; [split; [intros _; right; discriminate | reflexivity]|].
      split; [|discriminate]. intros _. split; [reflexivity|]. now exists e.
    + split; [split; [discriminate | intros [H|H]; [discriminate | congruence]]|].
      split; discriminate.
  - cbn [fst snd]. split; [split; [now left | reflexivity]|].
    split; [|reflexivity]. intros _. split; [reflexivity|]. eexists. split; reflexivity.
Qed.

(** X10: given the uploaded file object itself, a stream that has a name but
    is no path, [upload_to_drive] always returns [None]: the content cannot
    be set from it (a TypeError), the failure is logged and shown under the
    name of the stream, and neither a request is sent nor the remote store
    changed. *)
Theorem upload_stream_never_uploads (env : Env) (drive : Drive) (n d : string)
    (folder_id : option string) (w : World) :
  let r := upload_to_drive env drive (NamedStream n d) folder_id w in
  fst r = Ret None /\
  (exists e, exn_class e = TypeError /\ snd r = upload_failed n e w) /\
  remote_calls (snd r) = remote_calls w /\
  remote (snd r) = remote w.
Proof.
  intros r. subst r.
  assert (Hrun : upload_to_drive env drive (NamedStream n d) folder_id w =
                 (Ret None,
                  upload_failed n (Exn TypeError "expected str, bytes or os.PathLike object") w)).
  { unfold upload_to_drive, upload_body, try_except, bind.
    destruct (truthy folder_id); reflexivity. }
  rewrite Hrun. split; [reflexivity|]. split; [|split; reflexivity].
  exists (Exn TypeError "expected str, bytes or os.PathLike object").
  split; reflexivity.
Qed.

(** ** Downloading, in full *)

(** X11: [download_image] sends one request, for the content of the file,
    and returns: the picture when the request succeeds, the file exists and
    its content decodes, [None] otherwise.  It leaves the store and the
    session alone, and no local file that was not there before is there
    afterwards. *)
Theorem download_image_outcome (env : Env) (drive : Drive) (file_id : string) (w : World) :
  let r := download_image env drive file_id w in
  remote_calls (snd r) = remote_calls w ++ [CallGetContent file_id] /\
  remote (snd r) = remote w /\
  annotations (snd r) = annotations w /\
  (fst r = Ret None \/ exists img, fst r = Ret (Some img)) /\
  (forall img,
     fst r = Ret (Some img) <->
     get_content_error env file_id = None /\
     exists f, List.find (fun f => String.eqb (id f) file_id) (remote w) = Some f /\
               imread env (content f) = Some img) /\
  (forall p, local_fs w !! p = None -> local_fs (snd r) !! p = None).
Proof.
  intros r. subst r.
  destruct (download_image_cleans env drive file_id w) as (_ & Hann & Hfs & _).
  split; [|split; [|split; [exact Hann|split; [|split; [|exact Hfs]]]]];
    rewrite download_image_run;
    destruct (get_content_error env file_id) as [e|];
    try destruct (List.find _ (remote w)) as [f|];
    try destruct (imread env (content f)) as [img0|] eqn:Him;
    cbn [fst snd]; try reflexivity; eauto.
  all: intros img; split;
    [ intros [= <-] || discriminate
    | intros (Herr & g & Hg & Hi); try discriminate ].
  - split; [reflexivity|]. now exists f.
  - injection Hg as <-. congruence.
  - injection Hg as <-. congruence.
Qed.

(** ** The extension check *)

Lemma last_dot_no_dot e : has_dot e = false -> last_dot e = None.
Proof.
  unfold has_dot. induction e as [|c e IH]; cbn; [reflexivity|].
  intros H. apply orb_false_iff in H as [Hc He]. now rewrite (IH He), Hc.
Qed.

Lemma last_dot_append stem e :
  has_dot e = false -> last_dot (stem +:+ "." +:+ e) = Some (stem, "." +:+ e).
Proof.
  intros He. induction stem as [|c stem IH].
  - change (last_dot (String "." e) = Some ("", String "." e)).
    cbn [last_dot]. now rewrite (last_dot_no_dot e He).
  - change (last_dot (String c (stem +:+ "." +:+ e)) = Some (String c stem, "." +:+ e)).
    cbn [last_dot]. now rewrite IH.
Qed.

Lemma basename_no_sep p : contains_sep p = false -> basename p = p.
Proof.
  unfold contains_sep. destruct p as [|c r]; cbn; [reflexivity|].
  intros H. apply orb_false_iff in H as [Hc Hr].
  fold (contains_sep r). unfold contains_sep. now rewrite Hr, Hc.
Qed.

Lemma contains_sep_append s t :
  contains_sep (s +:+ t) = contains_sep s || contains_sep t.
Proof.
  unfold contains_sep. induction s as [|c s IH]; [reflexivity|].
  change (String c s +:+ t) with (String c (s +:+ t)).
  cbn [list_ascii_of_string existsb]. now rewrite IH, orb_assoc.
Qed.

Lemma splitext_ext_plain stem e :
  contains_sep stem = false -> contains_sep e = false ->
  has_dot e = false ->
  splitext_ext (stem +:+ "." +:+ e) = if all_dots stem then "" else "." +:+ e.
Proof.
  intros Hs He Hd. unfold splitext_ext.
  rewrite basename_no_sep.
  - now rewrite (last_dot_append stem e Hd).
  - rewrite !contains_sep_append, Hs, He. reflexivity.
Qed.

Lemma splitext_ext_no_dot p : has_dot p = false -> splitext_ext p = "".
Proof.
  intros Hp. unfold splitext_ext.
  assert (Hb : forall q, has_dot q = false -> has_dot (basename q) = false).
  { unfold has_dot. induction q as [|c r IH]; cbn; [reflexivity|].
    intros H. apply orb_false_iff in H as [Hc Hr].
    destruct (contains_sep r); [now apply IH|].
    destruct (Ascii.eqb c "/"); [exact Hr|]. cbn. now rewrite Hc, Hr. }
  now rewrite (last_dot_no_dot _ (Hb p Hp)).
Qed.

(** X12: a file named by a stem and an extension, [stem.ext], where the
    stem has no slash and is not made of dots only and the extension has
    neither dot nor slash, passes the check of the upload loop exactly when
    [.ext], in lower case, is .jpg, .jpeg or .png; a name without any dot
    never passes. *)
Theorem extension_check (stem e buffer : string) :
  contains_sep stem = false -> all_dots stem = false ->
  contains_sep e = false -> has_dot e = false ->
  (supported {| name := stem +:+ "." +:+ e; getbuffer := buffer |} <->
   lower ("." +:+ e) ∈ [".jpg"; ".jpeg"; ".png"]) /\
  (has_dot stem = false -> ~ supported {| name := stem; getbuffer := buffer |}).
Proof.
  intros Hs Hd He Hde. unfold supported. cbn [name]. split.
  - now rewrite (splitext_ext_plain stem e Hs He Hde), Hd.
  - intros Hn. rewrite (splitext_ext_no_dot stem Hn). cbn.
    intros H. repeat (apply elem_of_cons in H as [H|H]; [discriminate|]).
    now apply elem_of_nil in H.
Qed.

(** ** Listing, in full *)

(** X13: [list_drive_images] sends one request, the query for the pictures
    of the folder, whether or not it fails; what it returns are files of the
    store in the order of the store; it changes neither the store, nor the
    session, nor a local file. *)
Theorem list_drive_images_frame (env : Env) (drive : Drive) (folder_id : string) (w : World) :
  let r := list_drive_images env drive folder_id w in
  remote_calls (snd r) = remote_calls w ++ [CallList (images_query folder_id)] /\
  (exists found, fst r = Ret found /\ sublist found (remote w)) /\
  remote (snd r) = remote w /\
  annotations (snd r) = annotations w /\
  local_fs (snd r) = local_fs w.
Proof.
  intros r. subst r. rewrite list_drive_images_run.
  destruct (list_error env (images_query folder_id)); cbn [fst snd].
  - repeat split. exists []. split; [reflexivity | apply sublist_nil_l].
  - repeat split. eexists. split; [reflexivity|].
    generalize (remote w) as store.
    induction store as [|f l IH]; cbn [List.filter]; [constructor|].
    destruct (matches (images_query folder_id) f);
      [apply sublist_skip | apply sublist_cons]; exact IH.
Qed.

(** ** A run without pictures *)

Lemma list_drive_images_nothing env drive w :
  list_error env (images_query GDRIVE_FOLDER_ID) <> None \/
  Forall (fun f => ~ is_folder_image GDRIVE_FOLDER_ID f) (remote w) ->
  exists w1, list_drive_images env drive GDRIVE_FOLDER_ID w = (Ret [], w1) /\
             downloads_sent w1 = downloads_sent w.
Proof.
  intros H. rewrite list_drive_images_run.
  destruct (list_error env (images_query GDRIVE_FOLDER_ID)) as [e|].
  - eexists. split; [reflexivity|].
    unfold downloads_sent. cbn. rewrite List.filter_app. cbn. apply app_nil_r.
  - destruct H as [H|H]; [congruence|].
    rewrite filter_none.
    + eexists. split; [reflexivity|].
      unfold downloads_sent. cbn. rewrite List.filter_app. cbn. apply app_nil_r.
    + eapply Forall_impl; [exact H|]. intros f Hf Hm. now apply Hf, matches_images_query.
Qed.

(** X14: when the listing fails or the store holds no picture of the
    folder, a run downloads nothing: the editor is not entered, whatever
    the user has selected or clicked. *)
Theorem no_pictures_no_download (env : Env) (inp : Inputs) (w : World) :
  list_error env (images_query GDRIVE_FOLDER_ID) <> None \/
  Forall (fun f => ~ is_folder_image GDRIVE_FOLDER_ID f) (remote w) ->
  downloads_sent (snd (script env inp w)) = downloads_sent w.
Proof.
  intros H.
  assert (Hmain : downloads_sent (snd (main env inp w)) = downloads_sent w).
  { rewrite main_after_auth.
    assert (Hd : keeps downloads_sent (authenticate_drive env)) by (unfold_script; frame).
    assert (Hr : keeps remote (authenticate_drive env)) by (unfold_script; frame).
    specialize (Hd w). specialize (Hr w).
    destruct (authenticate_drive env w) as [[[d|]|e|] w1]; cbn [snd] in *; try exact Hd.
    do 5 (erewrite bind_Ret by reflexivity).
    match goal with
    | |- downloads_sent (snd (bind _ _ ?w5)) = _ =>
        destruct (list_drive_images_nothing env d w5) as (w6 & Hlist & Hw6);
        [destruct H as [H|H]; [now left | right; cbn [remote set_screen]; now rewrite Hr]|]
    end.
    rewrite (bind_Ret _ _ _ _ _ Hlist).
    match goal with
    | |- downloads_sent (snd (?m w6)) = _ =>
        assert (Hrest : keeps downloads_sent m) by (unfold_script; frame);
        rewrite (Hrest w6)
    end.
    rewrite Hw6. exact Hd. }
  unfold script, try_except.
  destruct (main env inp w) as [[[]|e|] w1]; cbn [snd] in *; exact Hmain.
Qed.

(** ** Concrete runs of the further properties *)

Lemma editor_box_within_image_witness :
  let w' := snd (annotate quiet_env save_click GoogleDrive [cat1; notes; cat2] (world_of [])) in
  annotations w' = Some [] \/
  exists a selected_id image,
    annotations w' = Some ([] ++ [a]) /\
    dict_get (filename a) (image_options [cat1; notes; cat2]) = Some selected_id /\
    fst (download_image quiet_env GoogleDrive selected_id (world_of [])) = Ret (Some image) /\
    label a = text_input save_click ("label_" +:+ filename a) /\
    0 <= x_min a < x_max a /\ x_max a <= width image /\
    0 <= y_min a < y_max a /\ y_max a <= height image.
Proof.
  exact (editor_box_within_image quiet_env save_click GoogleDrive [cat1; notes; cat2]
           (world_of []) [] eq_refl).
Defined.

Lemma upload_loop_ends_at_first_supported_witness :
  let w' := snd (upload_section quiet_env three_uploads GoogleDrive (world_of [])) in
  fst (upload_section quiet_env three_uploads GoogleDrive (world_of [])) = Raise no_name /\
  local_fs w' = <["/tmp/tmpq7.png" := Bytes "png"]> (<["/tmp/tmpq7.png" := Bytes ""]> ∅) /\
  length (screen w') = 1%nat /\
  remote_calls w' = [] /\
  annotations w' = Some [].
Proof.
  refine (upload_loop_ends_at_first_supported quiet_env three_uploads GoogleDrive
            (world_of []) [{| name := "notes.txt"; getbuffer := "txt" |}]
            [{| name := "later.jpg"; getbuffer := "jpg" |}]
            {| name := "P.PNG"; getbuffer := "png" |} eq_refl _ _).
  - apply Forall_cons_2; [|apply Forall_nil_2].
    unfold supported. intros H. pose proof (bool_decide_pack _ H) as Hb.
    vm_compute in Hb. exact Hb.
  - unfold supported. apply (bool_decide_unpack _). vm_compute. exact I.
Defined.

Lemma upload_path_creates_file_witness :
  let r := upload_to_drive quiet_env GoogleDrive (PathLike "/home/me/photo.png")
             (Some GDRIVE_FOLDER_ID) world_with_photo in
  fst r = Ret (Some "id-new") /\
  remote (snd r) = [cat1; notes; cat2] ++
    [{| id := "id-new"; title := "photo.png"; mimeType := None;
        parents := [GDRIVE_FOLDER_ID]; trashed := false; content := Bytes "png" |}] /\
  remote_calls (snd r) = [] ++ [CallInsert "photo.png"] /\
  local_fs (snd r) = local_fs world_with_photo.
Proof.
  refine (upload_path_creates_file quiet_env GoogleDrive "/home/me/photo.png"
            (Some GDRIVE_FOLDER_ID) (Bytes "png") world_with_photo _ eq_refl).
  vm_compute. reflexivity.
Defined.

Lemma extension_check_witness :
  (supported {| name := "Holiday.Photo" +:+ "." +:+ "PNG"; getbuffer := "png" |} <->
   lower ("." +:+ "PNG") ∈ [".jpg"; ".jpeg"; ".png"]) /\
  (has_dot "Holiday.Photo" = false ->
   ~ supported {| name := "Holiday.Photo"; getbuffer := "png" |}).
Proof.
  exact (extension_check "Holiday.Photo" "PNG" "png" eq_refl eq_refl eq_refl eq_refl).
Defined.

Lemma no_pictures_no_download_witness :
  downloads_sent (snd (script quiet_env save_click world_without_pictures)) = [].
Proof.
  refine (no_pictures_no_download quiet_env save_click world_without_pictures _).
  right. apply Forall_cons_2; [|apply Forall_nil_2].
  intros (_ & _ & [H|H]); discriminate H.
Defined.
